(** * Pipelined early ranker: the candidate generator merge service

    A shallow embedding of [src/py/generator_merge_service.py] and the
    properties of its merge, admission and timeout paths.

    Conventions of the embedding.
    - Python [int] is [Z]; Python [float] is abstracted by the rationals
      [Q] (exact arithmetic, a total order, no NaN and no rounding).
    - [uv_dict] is an insertion-ordered association list, because [OnTimeOut]
      sorts [uv_dict.items()] with a stable sort and the order of equal
      estimates is the insertion order of the dictionary.
    - [already_sent] is a dictionary whose values are always [True] and
      that is only ever tested for membership: a finite set of keys.
    - The two [print] calls stand for the dispatch to the two rankers; each
      operation returns the new service state and the list of dispatches it
      made, in order.
    - [numpy.log2] is a parameter of the development. *)

From Stdlib Require Import QArith Qround.
From stdpp Require Import gmap strings list sorting.

Local Open Scope Z_scope.
#[local] Set Warnings "-clear-no-such-hyp".

(** ** Floats as rationals *)

(** Python's [a < b] on numbers. *)
Definition Qltb (a b : Q) : bool := negb (Qle_bool b a).

(** Python's [max(a, b)]: the first argument unless the second is strictly
    greater. *)
Definition py_max (a b : Q) : Q := if Qltb a b then b else a.

(** ** Insertion-ordered dictionaries *)

Definition dict (V : Type) : Type := list (string * V).

(** [d.get(k)] *)
Fixpoint dict_get {V} (d : dict V) (k : string) : option V :=
  match d with
  | [] => None
  | (k', v) :: d' => if decide (k' = k) then Some v else dict_get d' k
  end.

(** [d[k] = v]: an existing key keeps its position, a new key goes last. *)
Fixpoint dict_set {V} (d : dict V) (k : string) (v : V) : dict V :=
  match d with
  | [] => [(k, v)]
  | (k', v') :: d' =>
      if decide (k' = k) then (k', v) :: d' else (k', v') :: dict_set d' k v
  end.

(** ** [sorted(items, key=lambda x: x[1], reverse=True)]

    Python's sort is stable, also with [reverse=True]: items with equal keys
    keep their original relative order.  Insertion from the right, stopping
    at the first element that is not strictly greater, computes that list. *)

Fixpoint insert_desc {A} (x : A * Q) (l : list (A * Q)) : list (A * Q) :=
  match l with
  | [] => [x]
  | y :: l' => if Qltb (snd x) (snd y) then y :: insert_desc x l' else x :: l
  end.

Definition sorted_by_value_desc {A} (l : list (A * Q)) : list (A * Q) :=
  foldr insert_desc [] l.

(** [l[:n]] for a Python integer [n]: a negative [n] counts from the end. *)
Definition py_slice_to {A} (l : list A) (n : Z) : list A :=
  if 0 <=? n then take (Z.to_nat n) l
  else take (length l - Z.to_nat (- n))%nat l.

(** ** Data model *)

Record GeneratorResult := mkGeneratorResult {
  item_id : string;
  rank : Z;
  score : Q
}.

Record CandidateGeneratorService := mkService {
  max_num_lsr : Z;
  lsr_sufficiency_threshold : Q;
  max_num_esr : Z;
  lsr_batch_size : Z;
  uv_dict : dict Q;
  num_lsr_sent : Z;
  items_waiting_for_lsr : list string;
  already_sent : gset string;
  weights : gmap Z (Q * Q * Q)
}.

(** What the service hands to its collaborators. *)
Inductive Dispatch :=
  | LateStageRanker (items_to_send : list string)
  | EarlyStageRanker (top_K_items : list (string * Q)).

(** [CandidateGeneratorService.__init__] *)
Definition init (max_num_lsr : Z) (lsr_sufficiency_threshold : Q)
    (max_num_esr lsr_batch_size : Z) (weights : gmap Z (Q * Q * Q))
  : CandidateGeneratorService :=
  {| max_num_lsr := max_num_lsr;
     lsr_sufficiency_threshold := lsr_sufficiency_threshold;
     max_num_esr := max_num_esr;
     lsr_batch_size := lsr_batch_size;
     uv_dict := [];
     num_lsr_sent := 0;
     items_waiting_for_lsr := [];
     already_sent := ∅;
     weights := weights |}.

(** Attribute assignments. *)
Definition set_uv_dict (self : CandidateGeneratorService) (d : dict Q) :=
  {| max_num_lsr := max_num_lsr self;
     lsr_sufficiency_threshold := lsr_sufficiency_threshold self;
     max_num_esr := max_num_esr self;
     lsr_batch_size := lsr_batch_size self;
     uv_dict := d;
     num_lsr_sent := num_lsr_sent self;
     items_waiting_for_lsr := items_waiting_for_lsr self;
     already_sent := already_sent self;
     weights := weights self |}.

Definition set_items_waiting_for_lsr (self : CandidateGeneratorService)
    (q : list string) :=
  {| max_num_lsr := max_num_lsr self;
     lsr_sufficiency_threshold := lsr_sufficiency_threshold self;
     max_num_esr := max_num_esr self;
     lsr_batch_size := lsr_batch_size self;
     uv_dict := uv_dict self;
     num_lsr_sent := num_lsr_sent self;
     items_waiting_for_lsr := q;
     already_sent := already_sent self;
     weights := weights self |}.

Definition set_flushed (self : CandidateGeneratorService)
    (sent : gset string) (n : Z) :=
  {| max_num_lsr := max_num_lsr self;
     lsr_sufficiency_threshold := lsr_sufficiency_threshold self;
     max_num_esr := max_num_esr self;
     lsr_batch_size := lsr_batch_size self;
     uv_dict := uv_dict self;
     num_lsr_sent := n;
     items_waiting_for_lsr := [];
     already_sent := sent;
     weights := weights self |}.

(** ** Late-stage admission queue *)

(** One iteration of the loop of [send_to_late_stage_ranker]; the
    accumulator is [(items_to_send, already_sent)]. *)
Definition flush_step (acc : list string * gset string) (item : string)
  : list string * gset string :=
  if decide (item ∈ acc.2) then acc
  else (acc.1 ++ [item], {[item]} ∪ acc.2).

Definition flush_loop (queue : list string) (sent : gset string)
  : list string * gset string :=
  foldl flush_step ([], sent) queue.

Definition send_to_late_stage_ranker (self : CandidateGeneratorService)
  : CandidateGeneratorService * list Dispatch :=
  let '(items_to_send, sent) :=
    flush_loop (items_waiting_for_lsr self) (already_sent self) in
  (set_flushed self sent (num_lsr_sent self + Z.of_nat (length items_to_send)),
   [LateStageRanker items_to_send]).

Definition enqueue_for_late_stage_ranker (self : CandidateGeneratorService)
    (item : string) : CandidateGeneratorService * list Dispatch :=
  if (num_lsr_sent self <? max_num_lsr self)
     && bool_decide (item ∉ items_waiting_for_lsr self)
  then
    let self1 :=
      set_items_waiting_for_lsr self (items_waiting_for_lsr self ++ [item]) in
    if lsr_batch_size self1 <=? Z.of_nat (length (items_waiting_for_lsr self1))
    then send_to_late_stage_ranker self1
    else (self1, [])
  else (self, []).

(** ** Timeout fallback *)

Definition send_to_early_stage_ranker (self : CandidateGeneratorService)
    (top_K_items : list (string * Q))
  : CandidateGeneratorService * list Dispatch :=
  (self, [EarlyStageRanker top_K_items]).

Definition OnTimeOut (self : CandidateGeneratorService)
  : CandidateGeneratorService * list Dispatch :=
  let top_K_items := sorted_by_value_desc (uv_dict self) in
  let top_K_items :=
    filter (λ x : string * Q, x.1 ∉ already_sent self) top_K_items in
  let top_K_items := py_slice_to top_K_items (max_num_esr self) in
  send_to_early_stage_ranker self top_K_items.

(** ** Scoring and generator completion *)

Section Service.

(** [numpy.log2] *)
Variable log2 : Q → Q.

Definition calculate_user_value_estimate (self : CandidateGeneratorService)
    (generator_id : Z) (rank : Z) (score : Q) : Q :=
  let '(w0, w1, w2) :=
    default (1%Q, 1%Q, 1%Q) (weights self !! generator_id) in
  (w0 * 1 / log2 (inject_Z (Z.max (1 + rank) 2)) + w1 * score + w2)%Q.

(** The body of the loop of [OnGeneratorCompletion]. *)
Definition on_result (generator_id : Z) (self : CandidateGeneratorService)
    (result : GeneratorResult) : CandidateGeneratorService * list Dispatch :=
  let uv_estimate :=
    calculate_user_value_estimate self generator_id
      (rank result) (score result) in
  let self1 :=
    set_uv_dict self
      (dict_set (uv_dict self) (item_id result)
         (py_max (default 0%Q (dict_get (uv_dict self) (item_id result)))
            uv_estimate)) in
  if Qltb (lsr_sufficiency_threshold self1) uv_estimate
     && bool_decide (item_id result ∉ already_sent self1)
  then enqueue_for_late_stage_ranker self1 (item_id result)
  else (self1, []).

Fixpoint OnGeneratorCompletion (self : CandidateGeneratorService)
    (generator_id : Z) (results : list GeneratorResult)
  : CandidateGeneratorService * list Dispatch :=
  match results with
  | [] => (self, [])
  | result :: results' =>
      let '(self1, out1) := on_result generator_id self result in
      let '(self2, out2) := OnGeneratorCompletion self1 generator_id results' in
      (self2, out1 ++ out2)
  end.

(** ** The service's lifetime: a sequence of calls of its two entry points *)

Inductive Call :=
  | Completion (generator_id : Z) (results : list GeneratorResult)
  | TimeOut.

Definition call (self : CandidateGeneratorService) (c : Call)
  : CandidateGeneratorService * list Dispatch :=
  match c with
  | Completion generator_id results =>
      OnGeneratorCompletion self generator_id results
  | TimeOut => OnTimeOut self
  end.

Fixpoint run (self : CandidateGeneratorService) (calls : list Call)
  : CandidateGeneratorService * list Dispatch :=
  match calls with
  | [] => (self, [])
  | c :: calls' =>
      let '(self1, out1) := call self c in
      let '(self2, out2) := run self1 calls' in
      (self2, out1 ++ out2)
  end.

(** ** Vocabulary of the properties *)

(** The store update of one loop iteration: merge-by-max with default 0. *)
Definition merged_estimate (self : CandidateGeneratorService) (generator_id : Z)
    (r : GeneratorResult) : Q :=
  py_max (default 0%Q (dict_get (uv_dict self) (item_id r)))
    (calculate_user_value_estimate self generator_id (rank r) (score r)).

(** The service after the store update of one loop iteration. *)
Definition stored (generator_id : Z) (s : CandidateGeneratorService)
    (r : GeneratorResult) : CandidateGeneratorService :=
  set_uv_dict s
    (dict_set (uv_dict s) (item_id r) (merged_estimate s generator_id r)).

(** The loop body with the admission test as the specification words it:
    the stored, post-update estimate is compared with the threshold. *)
Definition on_result_by_stored (generator_id : Z)
    (self : CandidateGeneratorService) (result : GeneratorResult)
  : CandidateGeneratorService * list Dispatch :=
  let self1 := stored generator_id self result in
  if Qltb (lsr_sufficiency_threshold self1)
       (merged_estimate self generator_id result)
     && bool_decide (item_id result ∉ already_sent self1)
  then enqueue_for_late_stage_ranker self1 (item_id result)
  else (self1, []).

(** Every estimate the service computes for [item] while it processes the
    given results, oldest first. *)
Definition result_estimates (s : CandidateGeneratorService) (item : string)
    (generator_id : Z) (results : list GeneratorResult) : list Q :=
  omap (λ r, if decide (item_id r = item)
             then Some (calculate_user_value_estimate s generator_id
                          (rank r) (score r))
             else None) results.

Definition estimates_for (s : CandidateGeneratorService) (item : string)
    (calls : list Call) : list Q :=
  flat_map (λ c, match c with
                 | Completion generator_id results =>
                     result_estimates s item generator_id results
                 | TimeOut => []
                 end) calls.

(** ** The public methods, called directly

    Python has no private methods: besides the two entry points a caller can
    invoke [enqueue_for_late_stage_ranker] and [send_to_late_stage_ranker]
    on the service itself. *)

Inductive Method :=
  | CallOnGeneratorCompletion (generator_id : Z) (results : list GeneratorResult)
  | CallOnTimeOut
  | CallEnqueue (item : string)
  | CallSend.

Definition invoke (self : CandidateGeneratorService) (m : Method)
  : CandidateGeneratorService * list Dispatch :=
  match m with
  | CallOnGeneratorCompletion generator_id results =>
      OnGeneratorCompletion self generator_id results
  | CallOnTimeOut => OnTimeOut self
  | CallEnqueue item => enqueue_for_late_stage_ranker self item
  | CallSend => send_to_late_stage_ranker self
  end.

Fixpoint run_methods (self : CandidateGeneratorService) (ms : list Method)
  : CandidateGeneratorService * list Dispatch :=
  match ms with
  | [] => (self, [])
  | m :: ms' =>
      let '(self1, out1) := invoke self m in
      let '(self2, out2) := run_methods self1 ms' in
      (self2, out1 ++ out2)
  end.

End Service.

(** What merging a list of estimates into a stored entry yields. *)
Definition merged (o : option Q) (es : list Q) : option Q :=
  foldl (λ o e, Some (py_max (default 0%Q o) e)) o es.

(** The configuration attributes, which no method assigns. *)
Definition same_config (s s' : CandidateGeneratorService) : Prop :=
  max_num_lsr s' = max_num_lsr s
  ∧ lsr_sufficiency_threshold s' = lsr_sufficiency_threshold s
  ∧ max_num_esr s' = max_num_esr s
  ∧ lsr_batch_size s' = lsr_batch_size s
  ∧ weights s' = weights s.

(** All item ids handed to the late-stage ranker, batch after batch. *)
Fixpoint late_stage_items (out : list Dispatch) : list string :=
  match out with
  | [] => []
  | LateStageRanker items :: out' => items ++ late_stage_items out'
  | EarlyStageRanker _ :: out' => late_stage_items out'
  end.

(** A step from [s] to [s'] with output [out] dispatches only items that were
    not in the sent-set, each once, and records them in the sent-set. *)
Definition dispatches_fresh (s s' : CandidateGeneratorService)
    (out : list Dispatch) : Prop :=
  NoDup (late_stage_items out)
  ∧ (∀ x, x ∈ late_stage_items out →
          (x ∉ already_sent s) ∧ (x ∈ already_sent s'))
  ∧ already_sent s ⊆ already_sent s'.

(** No item is queued twice, no queued item has been sent, and a non-empty
    queue is shorter than a batch. *)
Definition queue_ok (s : CandidateGeneratorService) : Prop :=
  NoDup (items_waiting_for_lsr s)
  ∧ (∀ x, x ∈ items_waiting_for_lsr s → x ∉ already_sent s)
  ∧ (items_waiting_for_lsr s = []
     ∨ Z.of_nat (length (items_waiting_for_lsr s)) < lsr_batch_size s).

(** An enqueue of [item] would change nothing, or the item has been sent. *)
Definition handled (s : CandidateGeneratorService) (item : string) : Prop :=
  item ∈ already_sent s ∨ item ∈ items_waiting_for_lsr s
  ∨ max_num_lsr s <= num_lsr_sent s.

(** Every item whose stored estimate exceeds the threshold is handled. *)
Definition above_threshold_handled (s : CandidateGeneratorService) : Prop :=
  ∀ item v, dict_get (uv_dict s) item = Some v →
            (lsr_sufficiency_threshold s < v)%Q → handled s item.

(** [x] may stand before [y] in a list sorted by value, largest first. *)
Definition value_ge {A} (x y : A * Q) : Prop := (y.2 <= x.2)%Q.

(** The batches handed to the late-stage ranker, oldest first. *)
Fixpoint late_stage_batches (out : list Dispatch) : list (list string) :=
  match out with
  | [] => []
  | LateStageRanker items :: out' => items :: late_stage_batches out'
  | EarlyStageRanker _ :: out' => late_stage_batches out'
  end.

(** In a dispatch log that starts with the sent-set [sent], no early-stage
    dispatch contains an item that is in [sent] or in an earlier late-stage
    batch of the log. *)
Fixpoint early_after_late (sent : gset string) (out : list Dispatch) : Prop :=
  match out with
  | [] => True
  | LateStageRanker items :: out' =>
      early_after_late (sent ∪ list_to_set items) out'
  | EarlyStageRanker top :: out' =>
      (∀ x, x ∈ top → x.1 ∉ sent) ∧ early_after_late sent out'
  end.

(** A call sequence without its timeouts. *)
Fixpoint without_timeouts (calls : list Call) : list Call :=
  match calls with
  | [] => []
  | Completion generator_id results :: calls' =>
      Completion generator_id results :: without_timeouts calls'
  | TimeOut :: calls' => without_timeouts calls'
  end.

(** The item ids of an estimate store, in insertion order. *)
Definition keys (d : dict Q) : list string := d.*1.

(** Every item that is queued or sent has a stored estimate above the
    threshold. *)
Definition admitted_above_threshold (s : CandidateGeneratorService) : Prop :=
  ∀ x, x ∈ items_waiting_for_lsr s ∨ x ∈ already_sent s →
       ∃ v, dict_get (uv_dict s) x = Some v
            ∧ (lsr_sufficiency_threshold s < v)%Q.

(** The two entry points are two of the public methods. *)
Definition as_method (c : Call) : Method :=
  match c with
  | Completion generator_id results =>
      CallOnGeneratorCompletion generator_id results
  | TimeOut => CallOnTimeOut
  end.

(** The counter grows by the number of dispatched items and the sent-set by
    the dispatched items. *)
Definition accounted (s s' : CandidateGeneratorService) (out : list Dispatch)
  : Prop :=
  num_lsr_sent s'
  = num_lsr_sent s + Z.of_nat (length (late_stage_items out))
  ∧ already_sent s' = already_sent s ∪ list_to_set (late_stage_items out).

(** The counter is a multiple of the batch size and exceeds the ceiling by
    less than one batch. *)
Definition budget_ok (s : CandidateGeneratorService) : Prop :=
  queue_ok s
  ∧ (lsr_batch_size s | num_lsr_sent s)
  ∧ num_lsr_sent s <= Z.max 0 (max_num_lsr s + lsr_batch_size s - 1).

(** One step between states with the same configuration that keeps
    [budget_ok] and dispatches only full batches. *)
Definition full_batches (s s' : CandidateGeneratorService)
    (out : list Dispatch) : Prop :=
  1 <= lsr_batch_size s → budget_ok s →
  same_config s s' ∧ budget_ok s'
  ∧ Forall (λ b, Z.of_nat (length b) = lsr_batch_size s)
      (late_stage_batches out).

(** Nothing but the store changes, and nothing is sent to the late stage. *)
Definition only_store_changes (s s' : CandidateGeneratorService)
    (out : list Dispatch) : Prop :=
  max_num_lsr s <= num_lsr_sent s →
  same_config s s'
  ∧ num_lsr_sent s' = num_lsr_sent s
  ∧ already_sent s' = already_sent s
  ∧ items_waiting_for_lsr s' = items_waiting_for_lsr s
  ∧ late_stage_batches out = [].

(** The ranking [OnTimeOut] truncates: the unsent store entries, best
    first. *)
Definition unsent_ranking (s : CandidateGeneratorService)
  : list (string * Q) :=
  filter (λ x : string * Q, x.1 ∉ already_sent s)
    (sorted_by_value_desc (uv_dict s)).

(** A step whose log respects the sent-set it started from. *)
Definition log_respects_sent (s s' : CandidateGeneratorService)
    (out : list Dispatch) : Prop :=
  early_after_late (already_sent s) out
  ∧ already_sent s' = already_sent s ∪ list_to_set (late_stage_items out).

(** ** Sample inputs *)

(** An instance of the logarithm for evaluating the service on sample inputs:
    the integer binary logarithm, which agrees with [numpy.log2] on the
    powers of two (in particular [log2 2 = 1], the value used at rank 1). *)
Definition log2_pow2 (x : Q) : Q := inject_Z (Z.log2 (Qfloor x)).

(** The weights of the example at the end of the source file. *)
Definition example_weights : gmap Z (Q * Q * Q) :=
  {[ 1 := (0.5%Q, 0.8%Q, 0.2%Q); 2 := (0.7%Q, 0.5%Q, 0.3%Q) ]}.

(** Weights under which the estimate of generator 1 is the raw score. *)
Definition score_only_weights : gmap Z (Q * Q * Q) :=
  {[ 1 := (0%Q, 1%Q, 0%Q) ]}.

(** * Properties *)

(** ** Comparisons and [max] *)

Lemma Qltb_lt (a b : Q) : Qltb a b = true ↔ (a < b)%Q.
Proof.
  unfold Qltb. rewrite negb_true_iff, <- not_true_iff_false, Qle_bool_iff.
  split; [apply Qnot_le_lt | apply Qlt_not_le].
Qed.

Lemma Qltb_ge (a b : Q) : Qltb a b = false ↔ (b <= a)%Q.
Proof. unfold Qltb. by rewrite negb_false_iff, Qle_bool_iff. Qed.

Lemma py_max_l (a b : Q) : (a <= py_max a b)%Q.
Proof.
  unfold py_max. destruct (Qltb a b) eqn:E; [|apply Qle_refl].
  by apply Qlt_le_weak, Qltb_lt.
Qed.

Lemma py_max_r (a b : Q) : (b <= py_max a b)%Q.
Proof.
  unfold py_max. destruct (Qltb a b) eqn:E; [apply Qle_refl|].
  by apply Qltb_ge.
Qed.

Lemma py_max_cases (a b : Q) : py_max a b = a ∨ py_max a b = b.
Proof. unfold py_max. destruct (Qltb a b); auto. Qed.

Lemma py_max_absorb (a b : Q) : py_max (py_max a b) b = py_max a b.
Proof.
  unfold py_max at 1. destruct (Qltb (py_max a b) b) eqn:E; [|done].
  apply Qltb_lt in E. destruct (Qlt_not_le _ _ E (py_max_r a b)).
Qed.

Lemma py_max_0_pos (e : Q) : (0 < e)%Q → py_max 0 e = e.
Proof. intros H. unfold py_max. by rewrite (proj2 (Qltb_lt 0 e) H). Qed.

Lemma py_max_0_nonpos (e : Q) : (e <= 0)%Q → py_max 0 e = 0%Q.
Proof. intros H. unfold py_max. by rewrite (proj2 (Qltb_ge 0 e) H). Qed.

(** ** Dictionaries *)

Section Dict.
Context {V : Type}.
Implicit Types (d : dict V) (k : string) (v : V).

Lemma dict_get_set_eq d k v : dict_get (dict_set d k v) k = Some v.
Proof.
  induction d as [|[k' v'] d IH]; simpl.
  - by rewrite decide_True.
  - destruct (decide (k' = k)) as [->|Hne]; simpl.
    + by rewrite decide_True.
    + by rewrite decide_False.
Qed.

Lemma dict_get_set_ne d k k' v :
  k ≠ k' → dict_get (dict_set d k v) k' = dict_get d k'.
Proof.
  intros Hne. induction d as [|[k0 v0] d IH]; simpl.
  - by rewrite decide_False.
  - destruct (decide (k0 = k)) as [->|Hk0]; simpl.
    + by rewrite !decide_False.
    + by rewrite IH.
Qed.

Lemma dict_set_set d k v v' : dict_set (dict_set d k v) k v' = dict_set d k v'.
Proof.
  induction d as [|[k0 v0] d IH]; simpl.
  - by rewrite decide_True.
  - destruct (decide (k0 = k)) as [->|Hk0]; simpl.
    + by rewrite decide_True.
    + by rewrite decide_False, IH.
Qed.

Lemma dict_set_values (P : V → Prop) d k v :
  P v → Forall (λ kv, P kv.2) d → Forall (λ kv, P kv.2) (dict_set d k v).
Proof.
  intros Hv. induction 1 as [|[k0 v0] d H0 Hd IH]; simpl.
  - by repeat constructor.
  - destruct (decide (k0 = k)); constructor; auto.
Qed.

Lemma dict_get_elem_of d k v : dict_get d k = Some v → (k, v) ∈ d.
Proof.
  induction d as [|[k0 v0] d IH]; simpl; [done|].
  destruct (decide (k0 = k)) as [->|Hne].
  - intros [= ->]. apply list_elem_of_here.
  - intros H. apply list_elem_of_further; auto.
Qed.
End Dict.

(** ** Frame properties of the operations *)

Lemma same_config_refl s : same_config s s.
Proof. by repeat split. Qed.

Lemma same_config_trans s1 s2 s3 :
  same_config s1 s2 → same_config s2 s3 → same_config s1 s3.
Proof.
  unfold same_config. intros (?&?&?&?&?) (?&?&?&?&?).
  repeat split; congruence.
Qed.

Lemma send_to_late_stage_ranker_frame s :
  same_config s (send_to_late_stage_ranker s).1
  ∧ uv_dict (send_to_late_stage_ranker s).1 = uv_dict s.
Proof.
  unfold send_to_late_stage_ranker.
  destruct (flush_loop _ _) as [items sent]. by repeat split.
Qed.

Lemma enqueue_for_late_stage_ranker_frame s item :
  same_config s (enqueue_for_late_stage_ranker s item).1
  ∧ uv_dict (enqueue_for_late_stage_ranker s item).1 = uv_dict s.
Proof.
  unfold enqueue_for_late_stage_ranker.
  destruct (_ && _); [|by repeat split].
  destruct (_ <=? _); [|by repeat split].
  apply (send_to_late_stage_ranker_frame (set_items_waiting_for_lsr s _)).
Qed.

Section ServiceFacts.

Variable log2 : Q → Q.

Abbreviation estimate := (calculate_user_value_estimate log2).

Lemma estimate_weights s s' generator_id rank score :
  weights s' = weights s →
  estimate s' generator_id rank score = estimate s generator_id rank score.
Proof. unfold calculate_user_value_estimate. by intros ->. Qed.

Lemma on_result_uv_dict generator_id s r :
  uv_dict (on_result log2 generator_id s r).1
  = dict_set (uv_dict s) (item_id r) (merged_estimate log2 s generator_id r).
Proof.
  unfold on_result. destruct (_ && _); [|done].
  by rewrite (proj2 (enqueue_for_late_stage_ranker_frame _ _)).
Qed.

Lemma on_result_config generator_id s r :
  same_config s (on_result log2 generator_id s r).1.
Proof.
  unfold on_result. destruct (_ && _); [|by repeat split].
  eapply same_config_trans;
    [|apply enqueue_for_late_stage_ranker_frame]. by repeat split.
Qed.

Lemma OnGeneratorCompletion_config s generator_id results :
  same_config s (OnGeneratorCompletion log2 s generator_id results).1.
Proof.
  revert s. induction results as [|r rs IH]; intros s; simpl.
  - apply same_config_refl.
  - pose proof (on_result_config generator_id s r) as H1.
    destruct (on_result log2 generator_id s r) as [s1 o1].
    specialize (IH s1).
    destruct (OnGeneratorCompletion log2 s1 generator_id rs) as [s2 o2].
    by eapply same_config_trans.
Qed.

Lemma call_config s c : same_config s (call log2 s c).1.
Proof.
  destruct c; simpl;
    [apply OnGeneratorCompletion_config | apply same_config_refl].
Qed.

Lemma run_config s calls : same_config s (run log2 s calls).1.
Proof.
  revert s. induction calls as [|c cs IH]; intros s; simpl.
  - apply same_config_refl.
  - pose proof (call_config s c) as H1.
    destruct (call log2 s c) as [s1 o1]. specialize (IH s1).
    destruct (run log2 s1 cs) as [s2 o2]. by eapply same_config_trans.
Qed.

(** ** The estimate store *)

Lemma result_estimates_weights s s' item generator_id results :
  weights s' = weights s →
  result_estimates log2 s' item generator_id results
  = result_estimates log2 s item generator_id results.
Proof.
  intros Hw. unfold result_estimates.
  induction results as [|r rs IH]; [done|].
  cbn [omap list_omap]. by rewrite IH, (estimate_weights _ _ _ _ _ Hw).
Qed.

Lemma estimates_for_weights s s' item calls :
  weights s' = weights s →
  estimates_for log2 s' item calls = estimates_for log2 s item calls.
Proof.
  intros Hw. unfold estimates_for. induction calls as [|[g rs|] cs IH]; simpl.
  - done.
  - by rewrite IH, (result_estimates_weights _ _ _ _ _ Hw).
  - done.
Qed.

Lemma merged_app o es1 es2 : merged o (es1 ++ es2) = merged (merged o es1) es2.
Proof. apply foldl_app. Qed.

Lemma on_result_get generator_id s r item :
  dict_get (uv_dict (on_result log2 generator_id s r).1) item
  = merged (dict_get (uv_dict s) item)
      (result_estimates log2 s item generator_id [r]).
Proof.
  rewrite on_result_uv_dict. unfold result_estimates. simpl.
  destruct (decide (item_id r = item)) as [<-|Hne]; simpl.
  - by rewrite dict_get_set_eq.
  - by rewrite dict_get_set_ne.
Qed.

Lemma OnGeneratorCompletion_get s generator_id results item :
  dict_get (uv_dict (OnGeneratorCompletion log2 s generator_id results).1) item
  = merged (dict_get (uv_dict s) item)
      (result_estimates log2 s item generator_id results).
Proof.
  revert s. induction results as [|r rs IH]; intros s; [done|].
  change (r :: rs) with ([r] ++ rs). unfold result_estimates.
  rewrite omap_app, merged_app.
  fold (result_estimates log2 s item generator_id [r]).
  fold (result_estimates log2 s item generator_id rs).
  rewrite <- on_result_get. simpl.
  pose proof (on_result_config generator_id s r) as (_&_&_&_&Hw).
  destruct (on_result log2 generator_id s r) as [s1 o1]. specialize (IH s1).
  destruct (OnGeneratorCompletion log2 s1 generator_id rs) as [s2 o2].
  simpl in *. by rewrite IH, (result_estimates_weights _ _ _ _ _ Hw).
Qed.

Lemma run_get s calls item :
  dict_get (uv_dict (run log2 s calls).1) item
  = merged (dict_get (uv_dict s) item) (estimates_for log2 s item calls).
Proof.
  revert s. induction calls as [|c cs IH]; intros s; [done|].
  simpl. rewrite merged_app.
  pose proof (call_config s c) as (_&_&_&_&Hw).
  assert (dict_get (uv_dict (call log2 s c).1) item
          = merged (dict_get (uv_dict s) item)
              match c with
              | Completion generator_id results =>
                  result_estimates log2 s item generator_id results
              | TimeOut => []
              end) as Hc.
  { destruct c; simpl; [apply OnGeneratorCompletion_get | done]. }
  destruct (call log2 s c) as [s1 o1]. specialize (IH s1).
  destruct (run log2 s1 cs) as [s2 o2]. simpl in *.
  by rewrite IH, Hc, (estimates_for_weights _ _ _ _ Hw).
Qed.

End ServiceFacts.

(** ** Merging estimates *)

Lemma merged_Some (v : Q) (es : list Q) :
  ∃ v', merged (Some v) es = Some v'
        ∧ (v <= v')%Q ∧ Forall (λ e, (e <= v')%Q) es ∧ (v' = v ∨ v' ∈ es).
Proof.
  revert v. induction es as [|e es IH]; intros v.
  - exists v. repeat split; [apply Qle_refl | constructor | by left].
  - destruct (IH (py_max v e)) as (v' & Hm & Hle & Hall & Hin).
    exists v'. split; [exact Hm|]. split; [|split].
    + eapply Qle_trans; [apply py_max_l | exact Hle].
    + constructor; [|exact Hall].
      eapply Qle_trans; [apply py_max_r | exact Hle].
    + destruct Hin as [->|Hin]; [|right; by constructor].
      destruct (py_max_cases v e) as [->| ->]; [by left | right; constructor].
Qed.

Lemma merged_nonempty (o : option Q) (es : list Q) :
  es ≠ [] →
  ∃ v, merged o es = Some v
       ∧ (default 0%Q o <= v)%Q ∧ Forall (λ e, (e <= v)%Q) es
       ∧ (v = default 0%Q o ∨ v ∈ es).
Proof.
  destruct es as [|e es]; [done|]. intros _.
  destruct (merged_Some (py_max (default 0%Q o) e) es)
    as (v & Hm & Hle & Hall & Hin).
  exists v. split; [exact Hm|]. split; [|split].
  - eapply Qle_trans; [apply py_max_l | exact Hle].
  - constructor; [|exact Hall]. eapply Qle_trans; [apply py_max_r | exact Hle].
  - destruct Hin as [->|Hin]; [|right; by constructor].
    destruct (py_max_cases (default 0%Q o) e) as [->| ->];
      [by left | right; constructor].
Qed.

Lemma merged_nonpositive (es : list Q) :
  Forall (λ e, (e <= 0)%Q) es → merged (Some 0%Q) es = Some 0%Q.
Proof.
  induction 1 as [|e es He Hes IH]; [done|].
  simpl. by rewrite (py_max_0_nonpos e He).
Qed.

Section StoreTheorems.

Variable log2 : Q → Q.

Lemma OnGeneratorCompletion_single s generator_id r :
  OnGeneratorCompletion log2 s generator_id [r] = on_result log2 generator_id s r.
Proof.
  simpl. destruct (on_result log2 generator_id s r) as [s1 o1].
  by rewrite app_nil_r.
Qed.

Lemma OnGeneratorCompletion_app s generator_id rs1 rs2 :
  OnGeneratorCompletion log2 s generator_id (rs1 ++ rs2)
  = let '(s1, o1) := OnGeneratorCompletion log2 s generator_id rs1 in
    let '(s2, o2) := OnGeneratorCompletion log2 s1 generator_id rs2 in
    (s2, o1 ++ o2).
Proof.
  revert s. induction rs1 as [|r rs1 IH]; intros s; simpl.
  - by destruct (OnGeneratorCompletion log2 s generator_id rs2).
  - destruct (on_result log2 generator_id s r) as [s1 o1]. rewrite IH.
    destruct (OnGeneratorCompletion log2 s1 generator_id rs1) as [s2 o2].
    destruct (OnGeneratorCompletion log2 s2 generator_id rs2) as [s3 o3].
    by rewrite app_assoc.
Qed.

Lemma on_result_twice_uv_dict generator_id s r :
  uv_dict (on_result log2 generator_id (on_result log2 generator_id s r).1 r).1
  = uv_dict (on_result log2 generator_id s r).1.
Proof.
  rewrite (on_result_uv_dict log2 generator_id (on_result log2 generator_id s r).1).
  unfold merged_estimate.
  pose proof (on_result_config log2 generator_id s r) as (_&_&_&_&Hw).
  rewrite (estimate_weights log2 _ _ _ _ _ Hw).
  rewrite on_result_uv_dict, dict_get_set_eq, dict_set_set. simpl.
  unfold merged_estimate. by rewrite py_max_absorb.
Qed.

Lemma on_result_nonneg generator_id s r :
  Forall (λ kv : string * Q, (0 <= kv.2)%Q) (uv_dict s) →
  Forall (λ kv : string * Q, (0 <= kv.2)%Q)
    (uv_dict (on_result log2 generator_id s r).1).
Proof.
  intros Hs. rewrite on_result_uv_dict.
  apply (dict_set_values (λ v, (0 <= v)%Q)); [|exact Hs].
  unfold merged_estimate. eapply Qle_trans; [|apply py_max_l].
  destruct (dict_get (uv_dict s) (item_id r)) as [x|] eqn:Hx; simpl; [|done].
  apply dict_get_elem_of in Hx. rewrite Forall_forall in Hs.
  apply (Hs _ Hx).
Qed.

Lemma OnGeneratorCompletion_nonneg s generator_id results :
  Forall (λ kv : string * Q, (0 <= kv.2)%Q) (uv_dict s) →
  Forall (λ kv : string * Q, (0 <= kv.2)%Q)
    (uv_dict (OnGeneratorCompletion log2 s generator_id results).1).
Proof.
  revert s. induction results as [|r rs IH]; intros s Hs; [done|]. simpl.
  pose proof (on_result_nonneg generator_id s r Hs) as H1.
  destruct (on_result log2 generator_id s r) as [s1 o1]. specialize (IH s1 H1).
  by destruct (OnGeneratorCompletion log2 s1 generator_id rs) as [s2 o2].
Qed.

Lemma run_nonneg s calls :
  Forall (λ kv : string * Q, (0 <= kv.2)%Q) (uv_dict s) →
  Forall (λ kv : string * Q, (0 <= kv.2)%Q) (uv_dict (run log2 s calls).1).
Proof.
  revert s. induction calls as [|c cs IH]; intros s Hs; [done|]. simpl.
  assert (Forall (λ kv : string * Q, (0 <= kv.2)%Q) (uv_dict (call log2 s c).1))
    as H1.
  { destruct c; simpl; [by apply OnGeneratorCompletion_nonneg | done]. }
  destruct (call log2 s c) as [s1 o1]. specialize (IH s1 H1).
  by destruct (run log2 s1 cs) as [s2 o2].
Qed.

End StoreTheorems.

(** ** The flush loop *)

Lemma flush_fold_acc (queue : list string) (acc : list string) (sent : gset string) :
  foldl flush_step (acc, sent) queue
  = (acc ++ (flush_loop queue sent).1, (flush_loop queue sent).2).
Proof.
  unfold flush_loop. revert acc sent.
  induction queue as [|x q IH]; intros acc sent; simpl.
  - by rewrite app_nil_r.
  - unfold flush_step at 2 4 6. simpl. destruct (decide (x ∈ sent)).
    + apply IH.
    + rewrite (IH (acc ++ [x])), (IH [x]). simpl. by rewrite <- app_assoc.
Qed.

Lemma flush_loop_cons (x : string) (queue : list string) (sent : gset string) :
  flush_loop (x :: queue) sent
  = if decide (x ∈ sent) then flush_loop queue sent
    else (x :: (flush_loop queue ({[x]} ∪ sent)).1,
          (flush_loop queue ({[x]} ∪ sent)).2).
Proof.
  unfold flush_loop at 1. simpl. unfold flush_step at 2. simpl.
  destruct (decide (x ∈ sent)); [done|]. by rewrite flush_fold_acc.
Qed.

(** The flushed items are new, pairwise distinct and in queue order, and the
    sent-set grows by exactly the queue's items. *)
Lemma flush_loop_spec (queue : list string) (sent : gset string) :
  NoDup (flush_loop queue sent).1
  ∧ (∀ x, x ∈ (flush_loop queue sent).1 ↔ x ∈ queue ∧ x ∉ sent)
  ∧ (flush_loop queue sent).2 = sent ∪ list_to_set queue
  ∧ (flush_loop queue sent).1 `sublist_of` queue.
Proof.
  revert sent. induction queue as [|x q IH]; intros sent.
  - unfold flush_loop. simpl. split_and!.
    + constructor.
    + intros y. split; [by intros ?%elem_of_nil | by intros [?%elem_of_nil _]].
    + set_solver.
    + done.
  - rewrite flush_loop_cons. destruct (decide (x ∈ sent)) as [Hx|Hx].
    + destruct (IH sent) as (Hnd & Hin & Hs & Hsub). split_and!.
      * done.
      * intros y. rewrite Hin. set_solver.
      * rewrite Hs. set_solver.
      * by apply sublist_cons.
    + destruct (IH ({[x]} ∪ sent)) as (Hnd & Hin & Hs & Hsub). simpl.
      split_and!.
      * apply NoDup_cons. split; [|done]. intros ?%Hin. set_solver.
      * intros y. rewrite elem_of_cons, Hin.
        destruct (decide (y = x)) as [->|Hne]; set_solver.
      * rewrite Hs. set_solver.
      * by apply sublist_skip.
Qed.

Lemma filter_all {A} (P : A → Prop) `{!∀ x, Decision (P x)} (l : list A) :
  (∀ x, x ∈ l → P x) → filter P l = l.
Proof.
  induction l as [|x l IH]; intros Hall; [done|].
  rewrite filter_cons_True by (apply Hall; constructor).
  f_equal. apply IH. intros y Hy. apply Hall. by constructor.
Qed.

Lemma filter_iff_elem {A} (P1 P2 : A → Prop)
    `{!∀ x, Decision (P1 x), !∀ x, Decision (P2 x)} (l : list A) :
  (∀ x, x ∈ l → P1 x ↔ P2 x) → filter P1 l = filter P2 l.
Proof.
  induction l as [|x l IH]; intros Hiff; [done|].
  assert (filter P1 l = filter P2 l) as Hl.
  { apply IH. intros y Hy. apply Hiff. by constructor. }
  pose proof (Hiff x (list_elem_of_here x l)) as Hx.
  rewrite !filter_cons, Hl.
  destruct (decide (P1 x)), (decide (P2 x)); tauto.
Qed.

Lemma flush_loop_NoDup (queue : list string) (sent : gset string) :
  NoDup queue → (flush_loop queue sent).1 = filter (λ x, x ∉ sent) queue.
Proof.
  revert sent. induction queue as [|x q IH]; intros sent Hnd; [done|].
  apply NoDup_cons in Hnd as [Hx Hq]. rewrite flush_loop_cons, filter_cons.
  destruct (decide (x ∈ sent)) as [Hs|Hs].
  - rewrite decide_False by (by intros ?). by apply IH.
  - rewrite decide_True by done. simpl. f_equal. rewrite (IH _ Hq).
    apply filter_iff_elem. intros y Hy. set_solver.
Qed.

(** ** Dispatches to the late-stage ranker *)

Lemma late_stage_items_app out1 out2 :
  late_stage_items (out1 ++ out2) = late_stage_items out1 ++ late_stage_items out2.
Proof.
  induction out1 as [|[items|top] out1 IH]; simpl; [done| |done].
  by rewrite IH, app_assoc.
Qed.

Lemma dispatches_fresh_nil s s' :
  already_sent s ⊆ already_sent s' → dispatches_fresh s s' [].
Proof.
  intros Hsub. split_and!; [constructor | by intros x ?%elem_of_nil | done].
Qed.

Lemma dispatches_fresh_seq s s1 s2 out1 out2 :
  dispatches_fresh s s1 out1 → dispatches_fresh s1 s2 out2 →
  dispatches_fresh s s2 (out1 ++ out2).
Proof.
  intros (Hnd1 & Hin1 & Hsub1) (Hnd2 & Hin2 & Hsub2).
  unfold dispatches_fresh. rewrite late_stage_items_app. split_and!.
  - apply NoDup_app. split_and!; [done| |done].
    intros x Hx1 Hx2. destruct (Hin1 _ Hx1), (Hin2 _ Hx2). tauto.
  - intros x [Hx|Hx]%elem_of_app.
    + destruct (Hin1 _ Hx). set_solver.
    + destruct (Hin2 _ Hx). set_solver.
  - set_solver.
Qed.

Lemma send_to_late_stage_ranker_fresh s :
  dispatches_fresh s (send_to_late_stage_ranker s).1 (send_to_late_stage_ranker s).2.
Proof.
  unfold send_to_late_stage_ranker.
  destruct (flush_loop_spec (items_waiting_for_lsr s) (already_sent s))
    as (Hnd & Hin & Hs & _).
  destruct (flush_loop _ _) as [items sent]. simpl in *.
  unfold dispatches_fresh. simpl. rewrite app_nil_r. split_and!.
  - done.
  - intros x Hx%Hin. rewrite Hs. set_solver.
  - rewrite Hs. set_solver.
Qed.

Lemma enqueue_for_late_stage_ranker_fresh s item :
  dispatches_fresh s (enqueue_for_late_stage_ranker s item).1
    (enqueue_for_late_stage_ranker s item).2.
Proof.
  unfold enqueue_for_late_stage_ranker.
  destruct (_ && _); [|by apply dispatches_fresh_nil].
  destruct (_ <=? _); [|by apply dispatches_fresh_nil].
  apply (send_to_late_stage_ranker_fresh (set_items_waiting_for_lsr s _)).
Qed.

Section LateStage.

Variable log2 : Q → Q.

Lemma on_result_fresh generator_id s r :
  dispatches_fresh s (on_result log2 generator_id s r).1
    (on_result log2 generator_id s r).2.
Proof.
  unfold on_result. destruct (_ && _); [|by apply dispatches_fresh_nil].
  apply (enqueue_for_late_stage_ranker_fresh (set_uv_dict s _)).
Qed.

Lemma OnGeneratorCompletion_fresh s generator_id results :
  dispatches_fresh s (OnGeneratorCompletion log2 s generator_id results).1
    (OnGeneratorCompletion log2 s generator_id results).2.
Proof.
  revert s. induction results as [|r rs IH]; intros s; simpl.
  - by apply dispatches_fresh_nil.
  - pose proof (on_result_fresh generator_id s r) as H1.
    destruct (on_result log2 generator_id s r) as [s1 o1]. specialize (IH s1).
    destruct (OnGeneratorCompletion log2 s1 generator_id rs) as [s2 o2].
    by eapply dispatches_fresh_seq.
Qed.

Lemma call_fresh s c : dispatches_fresh s (call log2 s c).1 (call log2 s c).2.
Proof.
  destruct c; simpl; [apply OnGeneratorCompletion_fresh|].
  split_and!; [constructor | by intros x ?%elem_of_nil | done].
Qed.

Lemma run_fresh s calls :
  dispatches_fresh s (run log2 s calls).1 (run log2 s calls).2.
Proof.
  revert s. induction calls as [|c cs IH]; intros s; simpl.
  - by apply dispatches_fresh_nil.
  - pose proof (call_fresh s c) as H1.
    destruct (call log2 s c) as [s1 o1]. specialize (IH s1).
    destruct (run log2 s1 cs) as [s2 o2]. by eapply dispatches_fresh_seq.
Qed.

End LateStage.

(** Distinct batches of a duplicate-free dispatch log share no item. *)
Lemma late_stage_items_batches (out : list Dispatch) :
  NoDup (late_stage_items out) →
  ∀ (i j : nat) (b1 b2 : list string) (item : string),
    out !! i = Some (LateStageRanker b1) →
    out !! j = Some (LateStageRanker b2) →
    item ∈ b1 → item ∈ b2 → i = j.
Proof.
  assert (∀ out (j : nat) b item,
    out !! j = Some (LateStageRanker b) → item ∈ b →
    item ∈ late_stage_items out) as Hmem.
  { clear. induction out as [|d out' IH]; intros [|j] b item Hj Hb;
      simpl in *; try done.
    - injection Hj as ->. simpl. apply elem_of_app. by left.
    - specialize (IH _ _ _ Hj Hb).
      destruct d as [items|top]; [|done]. apply elem_of_app. by right. }
  induction out as [|d out' IH]; intros Hnd i j b1 b2 item Hi Hj H1 H2.
  - done.
  - destruct d as [items|top]; simpl in Hnd.
    + apply NoDup_app in Hnd as (_ & Hdisj & Hnd').
      destruct i as [|i], j as [|j]; simpl in *.
      * done.
      * injection Hi as ->. destruct (Hdisj _ H1). by eapply Hmem.
      * injection Hj as ->. destruct (Hdisj _ H2). by eapply Hmem.
      * f_equal. by eapply (IH Hnd').
    + destruct i as [|i], j as [|j]; simpl in *; try done.
      f_equal. by eapply (IH Hnd).
Qed.

(** ** Enqueue and flush *)

Lemma enqueue_noop s item :
  max_num_lsr s <= num_lsr_sent s ∨ item ∈ items_waiting_for_lsr s →
  enqueue_for_late_stage_ranker s item = (s, []).
Proof.
  intros H. unfold enqueue_for_late_stage_ranker.
  destruct (num_lsr_sent s <? max_num_lsr s) eqn:Hb; [|done]. simpl.
  apply Z.ltb_lt in Hb. destruct H as [H|H]; [lia|].
  by rewrite bool_decide_eq_false_2 by (by intros ?).
Qed.

Lemma enqueue_accepts s item :
  num_lsr_sent s < max_num_lsr s → item ∉ items_waiting_for_lsr s →
  enqueue_for_late_stage_ranker s item
  = let self1 :=
      set_items_waiting_for_lsr s (items_waiting_for_lsr s ++ [item]) in
    if lsr_batch_size s <=? Z.of_nat (length (items_waiting_for_lsr s ++ [item]))
    then send_to_late_stage_ranker self1 else (self1, []).
Proof.
  intros Hb Hq. unfold enqueue_for_late_stage_ranker.
  by rewrite (proj2 (Z.ltb_lt _ _) Hb), bool_decide_eq_true_2.
Qed.

Lemma enqueue_append s item :
  num_lsr_sent s < max_num_lsr s → item ∉ items_waiting_for_lsr s →
  Z.of_nat (length (items_waiting_for_lsr s ++ [item])) < lsr_batch_size s →
  enqueue_for_late_stage_ranker s item
  = (set_items_waiting_for_lsr s (items_waiting_for_lsr s ++ [item]), []).
Proof.
  intros Hb Hq Hlen. rewrite enqueue_accepts by done. simpl.
  by rewrite (proj2 (Z.leb_gt _ _) Hlen).
Qed.

Lemma send_to_late_stage_ranker_NoDup s :
  NoDup (items_waiting_for_lsr s) →
  send_to_late_stage_ranker s
  = let fresh := filter (λ x, x ∉ already_sent s) (items_waiting_for_lsr s) in
    (set_flushed s (already_sent s ∪ list_to_set (items_waiting_for_lsr s))
       (num_lsr_sent s + Z.of_nat (length fresh)),
     [LateStageRanker fresh]).
Proof.
  intros Hnd. unfold send_to_late_stage_ranker.
  pose proof (flush_loop_NoDup _ (already_sent s) Hnd) as H1.
  destruct (flush_loop_spec (items_waiting_for_lsr s) (already_sent s))
    as (_ & _ & H2 & _).
  destruct (flush_loop _ _) as [items sent]. simpl in *. by subst.
Qed.

Lemma enqueue_flush s item :
  NoDup (items_waiting_for_lsr s) →
  num_lsr_sent s < max_num_lsr s → item ∉ items_waiting_for_lsr s →
  lsr_batch_size s <= Z.of_nat (length (items_waiting_for_lsr s ++ [item])) →
  enqueue_for_late_stage_ranker s item
  = let batch := items_waiting_for_lsr s ++ [item] in
    let fresh := filter (λ x, x ∉ already_sent s) batch in
    (set_flushed s (already_sent s ∪ list_to_set batch)
       (num_lsr_sent s + Z.of_nat (length fresh)),
     [LateStageRanker fresh]).
Proof.
  intros Hnd Hb Hq Hlen. rewrite enqueue_accepts by done. simpl.
  rewrite (proj2 (Z.leb_le _ _) Hlen).
  rewrite send_to_late_stage_ranker_NoDup; [done|]. simpl.
  apply NoDup_app. split_and!; [done| |apply NoDup_singleton].
  intros x Hx ->%list_elem_of_singleton. done.
Qed.

(** ** Invariant of the admission queue *)

Lemma queue_ok_init a b c d w : queue_ok (init a b c d w).
Proof. split_and!; [constructor | by intros x ?%elem_of_nil | by left]. Qed.

Lemma enqueue_queue_ok s item :
  queue_ok s → item ∉ already_sent s →
  queue_ok (enqueue_for_late_stage_ranker s item).1.
Proof.
  intros (Hnd & Hdisj & Hlen) Hitem.
  destruct (decide (num_lsr_sent s < max_num_lsr s ∧ item ∉ items_waiting_for_lsr s))
    as [[Hb Hq]|Hno].
  - destruct (decide (lsr_batch_size s
                      <= Z.of_nat (length (items_waiting_for_lsr s ++ [item]))))
      as [Hfl|Hfl].
    + rewrite enqueue_flush by done. unfold queue_ok. simpl.
      split_and!; [constructor | by intros x ?%elem_of_nil | by left].
    + rewrite enqueue_append by (done || lia). unfold queue_ok. simpl.
      split_and!.
      * apply NoDup_app. split_and!; [done| |apply NoDup_singleton].
        intros x Hx ->%list_elem_of_singleton. done.
      * intros x [Hx| ->%list_elem_of_singleton]%elem_of_app; auto.
      * right. lia.
  - rewrite enqueue_noop; [done|].
    destruct (decide (item ∈ items_waiting_for_lsr s)); [by right|].
    left. destruct (decide (max_num_lsr s <= num_lsr_sent s)); [done|].
    destruct Hno. split; [lia|done].
Qed.

Section QueueInvariant.

Variable log2 : Q → Q.

Lemma on_result_queue_ok generator_id s r :
  queue_ok s → queue_ok (on_result log2 generator_id s r).1.
Proof.
  intros Hs. unfold on_result.
  destruct (Qltb _ _); simpl; [|exact Hs].
  destruct (bool_decide _) eqn:Hd; simpl; [|exact Hs].
  apply bool_decide_eq_true in Hd.
  by apply (enqueue_queue_ok (set_uv_dict s _)).
Qed.

Lemma OnGeneratorCompletion_queue_ok s generator_id results :
  queue_ok s → queue_ok (OnGeneratorCompletion log2 s generator_id results).1.
Proof.
  revert s. induction results as [|r rs IH]; intros s Hs; [done|]. simpl.
  pose proof (on_result_queue_ok generator_id s r Hs) as H1.
  destruct (on_result log2 generator_id s r) as [s1 o1]. specialize (IH s1 H1).
  by destruct (OnGeneratorCompletion log2 s1 generator_id rs) as [s2 o2].
Qed.

Lemma run_queue_ok s calls : queue_ok s → queue_ok (run log2 s calls).1.
Proof.
  revert s. induction calls as [|c cs IH]; intros s Hs; [done|]. simpl.
  assert (queue_ok (call log2 s c).1) as H1.
  { destruct c; simpl; [by apply OnGeneratorCompletion_queue_ok | done]. }
  destruct (call log2 s c) as [s1 o1]. specialize (IH s1 H1).
  by destruct (run log2 s1 cs) as [s2 o2].
Qed.

End QueueInvariant.

(** ** The descending stable sort *)

Section Sorting.

Context {A : Type}.
Implicit Types (x y : A * Q) (l : list (A * Q)).

Lemma insert_desc_perm x l : insert_desc x l ≡ₚ x :: l.
Proof.
  induction l as [|y l IH]; simpl; [done|].
  destruct (Qltb x.2 y.2); [|done].
  rewrite IH. apply Permutation_swap.
Qed.

Lemma sorted_by_value_desc_perm l : sorted_by_value_desc l ≡ₚ l.
Proof.
  induction l as [|x l IH]; simpl; [done|].
  by rewrite insert_desc_perm, IH.
Qed.

Lemma insert_desc_sorted x l :
  StronglySorted value_ge l → StronglySorted value_ge (insert_desc x l).
Proof.
  induction 1 as [|y l Hl IH Hy]; simpl.
  - by repeat constructor.
  - destruct (Qltb x.2 y.2) eqn:E.
    + constructor; [done|]. rewrite insert_desc_perm.
      constructor; [|done]. by apply Qlt_le_weak, Qltb_lt.
    + apply Qltb_ge in E. constructor; [by constructor|].
      constructor; [done|].
      eapply Forall_impl; [exact Hy|]. intros z Hz.
      unfold value_ge in *. by eapply Qle_trans.
Qed.

Lemma sorted_by_value_desc_sorted l :
  StronglySorted value_ge (sorted_by_value_desc l).
Proof.
  induction l as [|x l IH]; simpl; [constructor|].
  by apply insert_desc_sorted.
Qed.

(** Stability: the items of any one value keep their original order. *)
Lemma insert_desc_stable (v : Q) x l :
  filter (λ z : A * Q, Qeq_bool z.2 v = true) (insert_desc x l)
  = filter (λ z : A * Q, Qeq_bool z.2 v = true) (x :: l).
Proof.
  induction l as [|y l IH]; simpl; [done|].
  destruct (Qltb x.2 y.2) eqn:E; [|done].
  rewrite (filter_cons _ y), IH, !filter_cons.
  destruct (decide (Qeq_bool y.2 v = true)) as [Hy|Hy]; [|done].
  destruct (decide (Qeq_bool x.2 v = true)) as [Hx|Hx]; [|done].
  apply Qeq_bool_iff in Hx, Hy. apply Qltb_lt in E.
  rewrite Hx, Hy in E. destruct (Qlt_irrefl _ E).
Qed.

Lemma sorted_by_value_desc_stable (v : Q) l :
  filter (λ z : A * Q, Qeq_bool z.2 v = true) (sorted_by_value_desc l)
  = filter (λ z : A * Q, Qeq_bool z.2 v = true) l.
Proof.
  induction l as [|x l IH]; simpl; [done|].
  by rewrite insert_desc_stable, !filter_cons, IH.
Qed.

End Sorting.

Lemma py_slice_to_nonneg {A} (l : list A) (n : Z) :
  0 <= n → py_slice_to l n = take (Z.to_nat n) l.
Proof. intros Hn. unfold py_slice_to. by rewrite (proj2 (Z.leb_le _ _) Hn). Qed.

(** ** The admission test *)

Section Admission.

Variable log2 : Q → Q.

Lemma on_result_enqueues generator_id s r :
  (lsr_sufficiency_threshold s
   < calculate_user_value_estimate log2 s generator_id (rank r) (score r))%Q →
  item_id r ∉ already_sent s →
  on_result log2 generator_id s r
  = enqueue_for_late_stage_ranker (stored log2 generator_id s r) (item_id r).
Proof.
  intros He Hs. unfold on_result. simpl.
  by rewrite (proj2 (Qltb_lt _ _) He), bool_decide_eq_true_2.
Qed.

Lemma on_result_skip generator_id s r :
  ¬ ((lsr_sufficiency_threshold s
      < calculate_user_value_estimate log2 s generator_id (rank r) (score r))%Q
     ∧ item_id r ∉ already_sent s) →
  on_result log2 generator_id s r = (stored log2 generator_id s r, []).
Proof.
  intros Hno. unfold on_result. simpl.
  destruct (Qltb _ _) eqn:He; [|done]. apply Qltb_lt in He.
  rewrite bool_decide_eq_false_2; [done|]. tauto.
Qed.

End Admission.

Lemma dict_set_id {V} (d : dict V) (k : string) (v : V) :
  dict_get d k = Some v → dict_set d k v = d.
Proof.
  induction d as [|[k0 v0] d IH]; simpl; [done|].
  destruct (decide (k0 = k)) as [->|Hne].
  - by intros [= ->].
  - intros H. by rewrite IH.
Qed.

(** ** The admission test on the stored estimate *)

Lemma send_to_late_stage_ranker_sent s :
  already_sent (send_to_late_stage_ranker s).1
  = already_sent s ∪ list_to_set (items_waiting_for_lsr s)
  ∧ num_lsr_sent s <= num_lsr_sent (send_to_late_stage_ranker s).1.
Proof.
  unfold send_to_late_stage_ranker.
  destruct (flush_loop_spec (items_waiting_for_lsr s) (already_sent s))
    as (_ & _ & Hs & _).
  destruct (flush_loop _ _) as [items sent]. simpl in *. split; [done|lia].
Qed.

Lemma enqueue_handled_mono s item x :
  handled s x → handled (enqueue_for_late_stage_ranker s item).1 x.
Proof.
  intros Hx. unfold enqueue_for_late_stage_ranker.
  destruct (_ && _); [|done]. simpl.
  destruct (_ <=? _).
  - pose proof (send_to_late_stage_ranker_sent
                  (set_items_waiting_for_lsr s
                     (items_waiting_for_lsr s ++ [item]))) as [Hs Hn].
    pose proof (send_to_late_stage_ranker_frame
                  (set_items_waiting_for_lsr s
                     (items_waiting_for_lsr s ++ [item]))) as [(Hm&_) _].
    unfold handled in *. rewrite Hs, Hm. simpl in *.
    destruct Hx as [Hx|[Hx|Hx]]; [left|left|right; right; lia]; set_solver.
  - unfold handled in *. simpl.
    destruct Hx as [Hx|[Hx|Hx]]; [by left | right; left | by right; right].
    apply elem_of_app. by left.
Qed.

Lemma enqueue_handles_item s item :
  handled (enqueue_for_late_stage_ranker s item).1 item.
Proof.
  unfold enqueue_for_late_stage_ranker.
  destruct (num_lsr_sent s <? max_num_lsr s) eqn:Hb; simpl.
  - destruct (bool_decide _) eqn:Hq.
    + destruct (_ <=? _).
      * pose proof (send_to_late_stage_ranker_sent
                      (set_items_waiting_for_lsr s
                         (items_waiting_for_lsr s ++ [item]))) as [Hs _].
        left. rewrite Hs. simpl. set_solver.
      * right; left. simpl. set_solver.
    + apply bool_decide_eq_false in Hq. right; left.
      by destruct (decide (item ∈ items_waiting_for_lsr s)).
  - apply Z.ltb_ge in Hb. by right; right.
Qed.

Section StoredTest.

Variable log2 : Q → Q.

Lemma on_result_handled_mono generator_id s r x :
  handled s x → handled (on_result log2 generator_id s r).1 x.
Proof.
  intros Hx. unfold on_result. destruct (_ && _); [|done].
  by apply (enqueue_handled_mono (set_uv_dict s _)).
Qed.

Lemma on_result_above_threshold_handled generator_id s r :
  (0 <= lsr_sufficiency_threshold s)%Q →
  above_threshold_handled s →
  above_threshold_handled (on_result log2 generator_id s r).1.
Proof.
  intros Hthr Hinv item v.
  pose proof (on_result_config log2 generator_id s r) as (_ & -> & _).
  rewrite on_result_uv_dict.
  destruct (decide (item_id r = item)) as [<-|Hne].
  - rewrite dict_get_set_eq. intros [= <-] Hv.
    unfold merged_estimate in Hv.
    destruct (py_max_cases
                (default 0%Q (dict_get (uv_dict s) (item_id r)))
                (calculate_user_value_estimate log2 s generator_id
                   (rank r) (score r))) as [Hm|Hm]; rewrite Hm in Hv.
    + destruct (dict_get (uv_dict s) (item_id r)) as [old|] eqn:Hold;
        simpl in Hv.
      * by apply on_result_handled_mono, (Hinv _ old).
      * destruct (Qlt_not_le _ _ Hv Hthr).
    + destruct (decide (item_id r ∈ already_sent s)) as [Hs|Hs].
      * apply on_result_handled_mono. by left.
      * rewrite on_result_enqueues by done. apply enqueue_handles_item.
  - rewrite dict_get_set_ne by done. intros Hget Hv.
    by apply on_result_handled_mono, (Hinv _ v).
Qed.

Lemma OnGeneratorCompletion_above_threshold_handled s generator_id results :
  (0 <= lsr_sufficiency_threshold s)%Q →
  above_threshold_handled s →
  above_threshold_handled (OnGeneratorCompletion log2 s generator_id results).1.
Proof.
  revert s. induction results as [|r rs IH]; intros s Hthr Hs; [done|]. simpl.
  pose proof (on_result_above_threshold_handled generator_id s r Hthr Hs) as H1.
  pose proof (on_result_config log2 generator_id s r) as (_ & Ht & _).
  destruct (on_result log2 generator_id s r) as [s1 o1]. simpl in *.
  rewrite <- Ht in Hthr. specialize (IH s1 Hthr H1).
  by destruct (OnGeneratorCompletion log2 s1 generator_id rs) as [s2 o2].
Qed.

Lemma run_above_threshold_handled s calls :
  (0 <= lsr_sufficiency_threshold s)%Q →
  above_threshold_handled s → above_threshold_handled (run log2 s calls).1.
Proof.
  revert s. induction calls as [|c cs IH]; intros s Hthr Hs; [done|]. simpl.
  assert (above_threshold_handled (call log2 s c).1) as H1.
  { destruct c; simpl;
      [by apply OnGeneratorCompletion_above_threshold_handled | done]. }
  pose proof (call_config log2 s c) as (_ & Ht & _).
  destruct (call log2 s c) as [s1 o1]. simpl in *.
  rewrite <- Ht in Hthr. specialize (IH s1 Hthr H1).
  by destruct (run log2 s1 cs) as [s2 o2].
Qed.

(** With a non-negative threshold, testing the stored estimate has the same
    effect as the code's test of the new estimate: where the two tests
    differ, the enqueue changes nothing. *)
Lemma on_result_by_stored_eq generator_id s r :
  (0 <= lsr_sufficiency_threshold s)%Q →
  above_threshold_handled s →
  on_result_by_stored log2 generator_id s r = on_result log2 generator_id s r.
Proof.
  intros Hthr Hinv. unfold on_result_by_stored, on_result.
  fold (stored log2 generator_id s r). simpl.
  destruct (bool_decide (item_id r ∉ already_sent s)) eqn:Hs;
    [|by rewrite !andb_false_r].
  apply bool_decide_eq_true in Hs. rewrite !andb_true_r.
  destruct (Qltb _ (calculate_user_value_estimate _ _ _ _ _)) eqn:He.
  - apply Qltb_lt in He.
    rewrite (proj2 (Qltb_lt _ _)); [done|].
    eapply Qlt_le_trans; [exact He | apply py_max_r].
  - destruct (Qltb _ (merged_estimate _ _ _ _)) eqn:Hm; [|done].
    apply Qltb_lt in Hm. apply Qltb_ge in He. unfold merged_estimate in Hm.
    assert (handled s (item_id r)) as [H|H]; [|done|].
    { destruct (py_max_cases
                  (default 0%Q (dict_get (uv_dict s) (item_id r)))
                  (calculate_user_value_estimate log2 s generator_id
                     (rank r) (score r))) as [Hc|Hc]; rewrite Hc in Hm.
      - destruct (dict_get (uv_dict s) (item_id r)) as [old|] eqn:Hold;
          simpl in Hm; [|destruct (Qlt_not_le _ _ Hm Hthr)].
        by apply (Hinv _ old).
      - destruct (Qlt_not_le _ _ Hm He). }
    rewrite enqueue_noop; [done|]. simpl. tauto.
Qed.

End StoredTest.

(** Every state that a fresh service reaches satisfies the queue invariant. *)
Corollary queue_ok_reachable
    (log2 : Q → Q) (max_lsr : Z) (threshold : Q) (max_esr batch : Z)
    (w : gmap Z (Q * Q * Q)) (calls : list Call) :
  queue_ok (run log2 (init max_lsr threshold max_esr batch w) calls).1.
Proof. apply run_queue_ok, queue_ok_init. Qed.

(** A fresh service with a ceiling of 10 and batches of 3 that receives
    twelve qualifying items dispatches four batches: the counter ends at 12. *)
Example fresh_service_overshoot :
  let results :=
    (λ item, mkGeneratorResult item 1 0.9%Q)
      <$> ["i01"; "i02"; "i03"; "i04"; "i05"; "i06";
           "i07"; "i08"; "i09"; "i10"; "i11"; "i12"] in
  let result :=
    OnGeneratorCompletion log2_pow2 (init 10 1.1%Q 5 3 example_weights)
      1 results in
  num_lsr_sent result.1 = 12
  ∧ result.2 = [LateStageRanker ["i01"; "i02"; "i03"];
                LateStageRanker ["i04"; "i05"; "i06"];
                LateStageRanker ["i07"; "i08"; "i09"];
                LateStageRanker ["i10"; "i11"; "i12"]].
Proof. split; vm_compute; reflexivity. Qed.

(** * The claims *)

(** ** The estimate store (C1, C9, C10) *)

(** C1, as the code has it.  After any sequence of calls on a fresh service
    the value stored for an item is the maximum of 0 and every estimate ever
    computed for it: there is no entry when no estimate was computed;
    otherwise the stored value is at least 0, at least every estimate, and is
    0 or one of the estimates.  From any state on, further calls never
    decrease a stored value.  An item first sighted with estimate [e] has
    stored value [max(0, e)]: [e] itself when [e] is positive, 0 otherwise. *)
Theorem stored_estimate_is_max_with_zero
    (log2 : Q → Q) (max_lsr : Z) (threshold : Q) (max_esr batch : Z)
    (w : gmap Z (Q * Q * Q)) (calls : list Call) (item : string) :
  let s0 := init max_lsr threshold max_esr batch w in
  let es := estimates_for log2 s0 item calls in
  let entry := dict_get (uv_dict (run log2 s0 calls).1) item in
  (es = [] → entry = None)
  ∧ (es ≠ [] →
     ∃ v, entry = Some v ∧ (0 <= v)%Q ∧ Forall (λ e, (e <= v)%Q) es
          ∧ (v = 0%Q ∨ v ∈ es))
  ∧ (∀ s more v, dict_get (uv_dict s) item = Some v →
       ∃ v', dict_get (uv_dict (run log2 s more).1) item = Some v'
             ∧ (v <= v')%Q)
  ∧ (∀ s generator_id r,
       dict_get (uv_dict s) (item_id r) = None →
       let e := calculate_user_value_estimate log2 s generator_id
                  (rank r) (score r) in
       dict_get (uv_dict (on_result log2 generator_id s r).1) (item_id r)
       = Some (py_max 0 e)
       ∧ ((0 < e)%Q → py_max 0 e = e)
       ∧ ((e <= 0)%Q → py_max 0 e = 0%Q)).
Proof.
  intros s0 es entry. subst entry. rewrite run_get. fold es. split_and!.
  - by intros ->.
  - intros Hes. destruct (merged_nonempty (dict_get (uv_dict s0) item) es Hes)
      as (v & Hm & Hle & Hall & Hin). by exists v.
  - intros s more v Hv. rewrite run_get, Hv.
    destruct (merged_Some v (estimates_for log2 s item more))
      as (v' & Hm & Hle & _). by exists v'.
  - intros s generator_id r Hnone e. split_and!.
    + rewrite on_result_uv_dict, dict_get_set_eq.
      unfold merged_estimate. by rewrite Hnone.
    + apply py_max_0_pos.
    + apply py_max_0_nonpos.
Qed.

(** C1 is false as stated: with the default weights (1, 1, 1) an item first
    sighted at rank 1 with score -10 has the estimate 1/log2(2) - 10 + 1 = -8,
    the only estimate ever computed for it, and the stored value is 0. *)
Lemma first_sighting_negative_estimate_stores_zero :
  let s0 := init 10 1.1%Q 5 3 ∅ in
  let calls := [Completion 1 [mkGeneratorResult "a" 1 (-10)%Q]] in
  ∃ e, estimates_for log2_pow2 s0 "a" calls = [e]
       ∧ (e == -8)%Q
       ∧ dict_get (uv_dict (run log2_pow2 s0 calls).1) "a" = Some 0%Q
       ∧ ¬ (0 == e)%Q.
Proof.
  eexists. split; [vm_compute; reflexivity|].
  split; [reflexivity|]. split; [vm_compute; reflexivity|].
  intros H. discriminate H.
Qed.

Lemma stored_estimate_is_max_with_zero_witness :
  let s0 := init 10 1.1%Q 5 3 example_weights in
  let calls :=
    [Completion 1 [mkGeneratorResult "item_1" 1 0.9%Q];
     TimeOut;
     Completion 2 [mkGeneratorResult "item_1" 3 0.2%Q]] in
  ∃ v, dict_get (uv_dict (run log2_pow2 s0 calls).1) "item_1" = Some v
       ∧ (0 <= v)%Q
       ∧ Forall (λ e, (e <= v)%Q) (estimates_for log2_pow2 s0 "item_1" calls)
       ∧ (v = 0%Q ∨ v ∈ estimates_for log2_pow2 s0 "item_1" calls).
Proof.
  intros s0 calls.
  apply (stored_estimate_is_max_with_zero log2_pow2 10 1.1%Q 5 3
           example_weights calls "item_1").
  vm_compute. discriminate.
Defined.

(** C9.  Processing a result a second time leaves the estimate store as it
    was: whether the second delivery comes in a call of its own, in the same
    call, or after any number of other calls. *)
Theorem repeated_result_keeps_store
    (log2 : Q → Q) (s : CandidateGeneratorService) (generator_id : Z)
    (r : GeneratorResult) :
  let once := (OnGeneratorCompletion log2 s generator_id [r]).1 in
  uv_dict (OnGeneratorCompletion log2 once generator_id [r]).1 = uv_dict once
  ∧ uv_dict (OnGeneratorCompletion log2 s generator_id [r; r]).1 = uv_dict once
  ∧ ∀ calls,
      let later := (run log2 once calls).1 in
      uv_dict (OnGeneratorCompletion log2 later generator_id [r]).1
      = uv_dict later.
Proof.
  intros once. subst once. rewrite !OnGeneratorCompletion_single. split_and!.
  - apply on_result_twice_uv_dict.
  - change [r; r] with ([r] ++ [r]).
    rewrite OnGeneratorCompletion_app, !OnGeneratorCompletion_single.
    pose proof (on_result_twice_uv_dict log2 generator_id s r) as H.
    destruct (on_result log2 generator_id s r) as [s1 o1]. simpl in *.
    by destruct (on_result log2 generator_id s1 r) as [s2 o2].
  - intros calls later. rewrite OnGeneratorCompletion_single, on_result_uv_dict.
    apply dict_set_id. unfold merged_estimate.
    pose proof (run_config log2 (on_result log2 generator_id s r).1 calls)
      as (_&_&_&_&Hw1).
    pose proof (on_result_config log2 generator_id s r) as (_&_&_&_&Hw2).
    fold later in Hw1.
    rewrite (estimate_weights log2 s later) by congruence.
    subst later. rewrite run_get, on_result_uv_dict, dict_get_set_eq.
    destruct (merged_Some (merged_estimate log2 s generator_id r)
                (estimates_for log2 (on_result log2 generator_id s r).1
                   (item_id r) calls)) as (v' & -> & Hle & _).
    simpl. f_equal. unfold py_max at 1.
    destruct (Qltb v' _) eqn:E; [|done]. apply Qltb_lt in E.
    destruct (Qlt_not_le _ _ E). eapply Qle_trans; [|exact Hle].
    apply py_max_r.
Qed.

(** C10.  In every state a fresh service can reach, every stored value is
    at least 0; and an item for which estimates were computed, all of them
    negative, has the stored value 0. *)
Theorem stored_estimates_nonnegative
    (log2 : Q → Q) (max_lsr : Z) (threshold : Q) (max_esr batch : Z)
    (w : gmap Z (Q * Q * Q)) (calls : list Call) :
  let s0 := init max_lsr threshold max_esr batch w in
  Forall (λ kv : string * Q, (0 <= kv.2)%Q) (uv_dict (run log2 s0 calls).1)
  ∧ ∀ item,
      estimates_for log2 s0 item calls ≠ [] →
      Forall (λ e, (e < 0)%Q) (estimates_for log2 s0 item calls) →
      dict_get (uv_dict (run log2 s0 calls).1) item = Some 0%Q.
Proof.
  intros s0. split.
  - apply run_nonneg. constructor.
  - intros item Hne Hneg. rewrite run_get.
    destruct (estimates_for log2 s0 item calls) as [|e es]; [done|].
    apply Forall_cons in Hneg as [He Hes]. simpl.
    rewrite (py_max_0_nonpos e) by (by apply Qlt_le_weak).
    apply merged_nonpositive. eapply Forall_impl; [exact Hes|].
    intros x. apply Qlt_le_weak.
Qed.

Lemma stored_estimates_nonnegative_witness :
  let s0 := init 10 1.1%Q 5 3 ∅ in
  let calls :=
    [Completion 1 [mkGeneratorResult "a" 1 (-10)%Q];
     Completion 7 [mkGeneratorResult "a" 3 (-4)%Q]] in
  dict_get (uv_dict (run log2_pow2 s0 calls).1) "a" = Some 0%Q.
Proof.
  intros s0 calls.
  apply (stored_estimates_nonnegative log2_pow2 10 1.1%Q 5 3 ∅ calls).
  - vm_compute. discriminate.
  - vm_compute. repeat constructor.
Defined.

(** ** Admission to the late-stage ranker (C2, C3, C4) *)

(** C2, as the code has it.  While a result is processed, its item is handed
    to the enqueue operation if and only if the estimate newly computed for
    this arrival strictly exceeds the threshold and the item is not in the
    sent-set; otherwise only the store is updated: the queue, the sent-set
    and the counter stay as they are and nothing is dispatched.  On a service
    started fresh with a non-negative threshold this has the same effect as
    testing the stored, post-update estimate: an unsent item whose stored
    estimate exceeds the threshold while the new one does not is already
    queued, or the budget is exhausted, and the enqueue would change
    nothing. *)
Theorem admission_tests_new_estimate
    (log2 : Q → Q) (generator_id : Z) (s : CandidateGeneratorService)
    (r : GeneratorResult) :
  let e := calculate_user_value_estimate log2 s generator_id
             (rank r) (score r) in
  let qualifies :=
    (lsr_sufficiency_threshold s < e)%Q ∧ item_id r ∉ already_sent s in
  (qualifies →
   on_result log2 generator_id s r
   = enqueue_for_late_stage_ranker (stored log2 generator_id s r) (item_id r))
  ∧ (¬ qualifies →
     on_result log2 generator_id s r = (stored log2 generator_id s r, [])
     ∧ items_waiting_for_lsr (on_result log2 generator_id s r).1
       = items_waiting_for_lsr s
     ∧ already_sent (on_result log2 generator_id s r).1 = already_sent s
     ∧ num_lsr_sent (on_result log2 generator_id s r).1 = num_lsr_sent s)
  ∧ (∀ max_lsr threshold max_esr batch w calls,
       (0 <= threshold)%Q →
       s = (run log2 (init max_lsr threshold max_esr batch w) calls).1 →
       on_result_by_stored log2 generator_id s r
       = on_result log2 generator_id s r).
Proof.
  intros e qualifies. split_and!.
  - intros [He Hs]. by apply on_result_enqueues.
  - intros Hno. by rewrite on_result_skip.
  - intros max_lsr threshold max_esr batch w calls Hthr ->.
    pose proof (run_config log2 (init max_lsr threshold max_esr batch w) calls)
      as (_ & Ht & _).
    apply on_result_by_stored_eq.
    + by rewrite Ht.
    + apply run_above_threshold_handled; [done|]. by intros item v.
Qed.

(** C2 is false as stated: with threshold -1, an item first sighted with the
    estimate -8 gets the stored value 0, which exceeds the threshold, and it
    is not in the sent-set; yet it is not enqueued, although an enqueue in
    that state would have put it in the queue. *)
Lemma stored_estimate_above_threshold_not_enqueued :
  let s0 := init 10 (-1)%Q 5 3 ∅ in
  let r := mkGeneratorResult "a" 1 (-10)%Q in
  let s := (OnGeneratorCompletion log2_pow2 s0 1 [r]).1 in
  dict_get (uv_dict s) "a" = Some 0%Q
  ∧ (lsr_sufficiency_threshold s < 0)%Q
  ∧ ("a" ∉ already_sent s)
  ∧ items_waiting_for_lsr s = []
  ∧ (OnGeneratorCompletion log2_pow2 s0 1 [r]).2 = []
  ∧ items_waiting_for_lsr
      (enqueue_for_late_stage_ranker (stored log2_pow2 1 s0 r) "a").1 = ["a"]
  ∧ on_result_by_stored log2_pow2 1 s0 r ≠ on_result log2_pow2 1 s0 r.
Proof.
  split_and!; try (vm_compute; reflexivity).
  - vm_compute. set_solver.
  - intros H. apply (f_equal (λ p, items_waiting_for_lsr p.1)) in H.
    vm_compute in H. discriminate H.
Qed.

Lemma admission_tests_new_estimate_witness :
  let s0 := init 10 1.1%Q 5 3 example_weights in
  let r := mkGeneratorResult "item_1" 1 0.9%Q in
  on_result log2_pow2 1 s0 r
  = enqueue_for_late_stage_ranker (stored log2_pow2 1 s0 r) "item_1".
Proof.
  intros s0 r.
  apply (admission_tests_new_estimate log2_pow2 1 s0 r).
  split; [vm_compute; reflexivity | vm_compute; set_solver].
Defined.

Section Burst.

Variable log2 : Q → Q.

(** A qualifying result that does not fill the batch is queued. *)
Lemma on_result_queues generator_id s r :
  (lsr_sufficiency_threshold s
   < calculate_user_value_estimate log2 s generator_id (rank r) (score r))%Q →
  item_id r ∉ already_sent s →
  num_lsr_sent s < max_num_lsr s →
  item_id r ∉ items_waiting_for_lsr s →
  Z.of_nat (length (items_waiting_for_lsr s ++ [item_id r])) < lsr_batch_size s →
  on_result log2 generator_id s r
  = (set_items_waiting_for_lsr (stored log2 generator_id s r)
       (items_waiting_for_lsr s ++ [item_id r]), []).
Proof.
  intros He Hs Hb Hq Hlen. rewrite on_result_enqueues by done.
  by rewrite enqueue_append.
Qed.

(** A qualifying result that fills the batch flushes the queue. *)
Lemma on_result_flushes generator_id s r :
  (lsr_sufficiency_threshold s
   < calculate_user_value_estimate log2 s generator_id (rank r) (score r))%Q →
  item_id r ∉ already_sent s →
  num_lsr_sent s < max_num_lsr s →
  NoDup (items_waiting_for_lsr s ++ [item_id r]) →
  (∀ x, x ∈ items_waiting_for_lsr s → x ∉ already_sent s) →
  lsr_batch_size s <= Z.of_nat (length (items_waiting_for_lsr s ++ [item_id r])) →
  on_result log2 generator_id s r
  = let batch := items_waiting_for_lsr s ++ [item_id r] in
    (set_flushed (stored log2 generator_id s r)
       (already_sent s ∪ list_to_set batch)
       (num_lsr_sent s + Z.of_nat (length batch)),
     [LateStageRanker batch]).
Proof.
  intros He Hs Hb Hnd Hdisj Hlen. rewrite on_result_enqueues by done.
  apply NoDup_app in Hnd as (Hnd & Hq & _).
  rewrite enqueue_flush; simpl; try done.
  - rewrite (filter_all (λ x, x ∉ already_sent s)); [done|].
    intros x [Hx| ->%list_elem_of_singleton]%elem_of_app; auto.
  - intros Hin. by apply (Hq _ Hin), list_elem_of_singleton.
Qed.

End Burst.

(** C3.  With a ceiling of 10 and batches of 3, in a state with 8 items in
    the sent-set, the counter at 8 and an empty queue, a burst of three
    qualifying results for three distinct unsent items dispatches exactly
    those three items in one batch and leaves the counter at 11, above the
    ceiling. *)
Theorem budget_overshoot
    (log2 : Q → Q) (s : CandidateGeneratorService) (generator_id : Z)
    (r1 r2 r3 : GeneratorResult) :
  max_num_lsr s = 10 → lsr_batch_size s = 3 →
  num_lsr_sent s = 8 → size (already_sent s) = 8%nat →
  items_waiting_for_lsr s = [] →
  NoDup [item_id r1; item_id r2; item_id r3] →
  (∀ r, r ∈ [r1; r2; r3] →
     (item_id r ∉ already_sent s)
     ∧ (lsr_sufficiency_threshold s
        < calculate_user_value_estimate log2 s generator_id (rank r) (score r))%Q) →
  let result := OnGeneratorCompletion log2 s generator_id [r1; r2; r3] in
  result.2 = [LateStageRanker [item_id r1; item_id r2; item_id r3]]
  ∧ num_lsr_sent result.1 = 11
  ∧ max_num_lsr result.1 < num_lsr_sent result.1
  ∧ items_waiting_for_lsr result.1 = []
  ∧ size (already_sent result.1) = 11%nat
  ∧ (∀ r, r ∈ [r1; r2; r3] → item_id r ∈ already_sent result.1).
Proof.
  intros Hmax Hbatch Hnum Hsize Hq Hnd Hall result.
  destruct (Hall r1) as [Hs1 He1]; [set_solver|].
  destruct (Hall r2) as [Hs2 He2]; [set_solver|].
  destruct (Hall r3) as [Hs3 He3]; [set_solver|].
  pose proof Hnd as Hnd3.
  apply NoDup_cons in Hnd as [Hn1 Hnd]. apply NoDup_cons in Hnd as [Hn2 _].
  set (S1 := set_items_waiting_for_lsr (stored log2 generator_id s r1)
               [item_id r1]).
  set (S2 := set_items_waiting_for_lsr (stored log2 generator_id S1 r2)
               [item_id r1; item_id r2]).
  assert (on_result log2 generator_id s r1 = (S1, [])) as E1.
  { rewrite on_result_queues; rewrite ?Hq; try done.
    - lia.
    - by intros ?%elem_of_nil.
    - simpl. lia. }
  assert (on_result log2 generator_id S1 r2 = (S2, [])) as E2.
  { refine (on_result_queues log2 generator_id S1 r2 _ _ _ _ _).
    - rewrite (estimate_weights log2 s S1) by reflexivity. exact He2.
    - exact Hs2.
    - simpl. lia.
    - simpl. set_solver.
    - simpl. lia. }
  assert (on_result log2 generator_id S2 r3
          = (set_flushed (stored log2 generator_id S2 r3)
               (already_sent s
                ∪ list_to_set [item_id r1; item_id r2; item_id r3])
               (num_lsr_sent s + 3),
             [LateStageRanker [item_id r1; item_id r2; item_id r3]])) as E3.
  { refine (on_result_flushes log2 generator_id S2 r3 _ _ _ _ _ _).
    - rewrite (estimate_weights log2 s S2) by reflexivity. exact He3.
    - exact Hs3.
    - simpl. lia.
    - exact Hnd3.
    - simpl. set_solver.
    - simpl. lia. }
  assert (size (already_sent s
                ∪ list_to_set [item_id r1; item_id r2; item_id r3]) = 11%nat)
    as Hsz.
  { rewrite size_union by set_solver.
    rewrite size_list_to_set by done. simpl. lia. }
  assert (∀ r, r ∈ [r1; r2; r3] →
            item_id r ∈ already_sent s
                        ∪ list_to_set [item_id r1; item_id r2; item_id r3])
    as Hin by set_solver.
  subst result. cbn [OnGeneratorCompletion]. rewrite E1, E2, E3. simpl.
  split_and!; [done | lia | lia | done | exact Hsz | exact Hin].
Qed.

Lemma budget_overshoot_witness :
  let sent_before :=
    (λ item, mkGeneratorResult item 1 0.9%Q)
      <$> ["s1"; "s2"; "s3"; "s4"; "s5"; "s6"; "s7"; "s8"] in
  let s :=
    (send_to_late_stage_ranker
       (OnGeneratorCompletion log2_pow2 (init 10 1.1%Q 5 3 example_weights)
          1 sent_before).1).1 in
  let result :=
    OnGeneratorCompletion log2_pow2 s 1
      [mkGeneratorResult "item_1" 1 0.9%Q;
       mkGeneratorResult "item_2" 1 0.8%Q;
       mkGeneratorResult "item_3" 1 0.7%Q] in
  result.2 = [LateStageRanker ["item_1"; "item_2"; "item_3"]]
  ∧ num_lsr_sent result.1 = 11.
Proof.
  intros sent_before s result.
  pose proof (budget_overshoot log2_pow2 s 1
    (mkGeneratorResult "item_1" 1 0.9%Q)
    (mkGeneratorResult "item_2" 1 0.8%Q)
    (mkGeneratorResult "item_3" 1 0.7%Q)) as H.
  destruct H as (H1 & H2 & _).
  - vm_compute. reflexivity.
  - vm_compute. reflexivity.
  - vm_compute. reflexivity.
  - vm_compute. reflexivity.
  - vm_compute. reflexivity.
  - apply (bool_decide_unpack _); vm_compute; exact I.
  - intros r Hr. apply Forall_forall with (x := r) (l :=
      [mkGeneratorResult "item_1" 1 0.9%Q;
       mkGeneratorResult "item_2" 1 0.8%Q;
       mkGeneratorResult "item_3" 1 0.7%Q]); [|exact Hr].
    repeat constructor; try (vm_compute; reflexivity);
      apply (bool_decide_unpack _); vm_compute; exact I.
  - split; [exact H1 | exact H2].
Defined.

(** C4 is false as stated: the flush does not always dispatch the entire
    batch.  With a batch size of 1, a first enqueue of "a" flushes and sends
    it; a second enqueue of "a" puts it in the queue again, the flush fires,
    and the batch handed to the late-stage ranker is empty, because "a" is in
    the sent-set; the counter stays at 1. *)
Lemma flush_skips_already_sent_item :
  let s := (enqueue_for_late_stage_ranker
              (init 10 1.1%Q 5 1 example_weights) "a").1 in
  let batch := items_waiting_for_lsr s ++ ["a"] in
  num_lsr_sent s = 1
  ∧ num_lsr_sent s < max_num_lsr s
  ∧ ("a" ∉ items_waiting_for_lsr s)
  ∧ batch = ["a"]
  ∧ lsr_batch_size s <= Z.of_nat (length batch)
  ∧ (enqueue_for_late_stage_ranker s "a").2 = [LateStageRanker []]
  ∧ (enqueue_for_late_stage_ranker s "a").2 ≠ [LateStageRanker batch]
  ∧ num_lsr_sent (enqueue_for_late_stage_ranker s "a").1 = 1.
Proof.
  split_and!; try (vm_compute; reflexivity).
  - intros Hin. vm_compute in Hin. by apply elem_of_nil in Hin.
  - vm_compute. discriminate.
  - vm_compute. discriminate.
Qed.

(** C4, as the code has it.  With no item queued twice: enqueue changes
    nothing when the counter has reached the ceiling or the item is already
    queued.  Otherwise the item goes to the end of the queue and neither the
    configuration nor the store changes; while the queue stays shorter than a
    batch, the sent-set and the counter stay as they are and nothing is
    dispatched; as soon as its length reaches the batch size the flush
    dispatches, in queue order, the items of the batch that are not already
    in the sent-set, adds every item of the batch to the sent-set, adds the
    number of dispatched items to the counter and empties the queue.  When no
    item of the batch was in the sent-set, the dispatched list is the entire
    batch. *)
Theorem enqueue_spec (s : CandidateGeneratorService) (item : string) :
  NoDup (items_waiting_for_lsr s) →
  let batch := items_waiting_for_lsr s ++ [item] in
  let fresh := filter (λ x, x ∉ already_sent s) batch in
  let s' := (enqueue_for_late_stage_ranker s item).1 in
  let out := (enqueue_for_late_stage_ranker s item).2 in
  (max_num_lsr s <= num_lsr_sent s ∨ item ∈ items_waiting_for_lsr s →
   s' = s ∧ out = [])
  ∧ (num_lsr_sent s < max_num_lsr s → item ∉ items_waiting_for_lsr s →
     max_num_lsr s' = max_num_lsr s
     ∧ lsr_sufficiency_threshold s' = lsr_sufficiency_threshold s
     ∧ max_num_esr s' = max_num_esr s
     ∧ lsr_batch_size s' = lsr_batch_size s
     ∧ weights s' = weights s
     ∧ uv_dict s' = uv_dict s
     ∧ (Z.of_nat (length batch) < lsr_batch_size s →
        items_waiting_for_lsr s' = batch
        ∧ already_sent s' = already_sent s
        ∧ num_lsr_sent s' = num_lsr_sent s
        ∧ out = [])
     ∧ (lsr_batch_size s <= Z.of_nat (length batch) →
        out = [LateStageRanker fresh]
        ∧ already_sent s' = already_sent s ∪ list_to_set batch
        ∧ num_lsr_sent s' = num_lsr_sent s + Z.of_nat (length fresh)
        ∧ items_waiting_for_lsr s' = []))
  ∧ ((∀ x, x ∈ batch → x ∉ already_sent s) → fresh = batch)
  ∧ fresh `sublist_of` batch.
Proof.
  intros Hnd batch fresh s' out. subst s' out. split_and!.
  - intros H. by rewrite enqueue_noop.
  - intros Hb Hq.
    destruct (enqueue_for_late_stage_ranker_frame s item)
      as [(? & ? & ? & ? & ?) ?].
    split_and!; try done.
    + intros Hlen. by rewrite enqueue_append.
    + intros Hlen. by rewrite enqueue_flush.
  - intros Hall. by apply filter_all.
  - apply sublist_filter.
Qed.

Lemma enqueue_spec_witness :
  let s :=
    set_items_waiting_for_lsr (init 10 1.1%Q 5 3 example_weights)
      ["item_1"; "item_2"] in
  (enqueue_for_late_stage_ranker s "item_3").2
  = [LateStageRanker ["item_1"; "item_2"; "item_3"]]
  ∧ already_sent (enqueue_for_late_stage_ranker s "item_3").1
    = list_to_set ["item_1"; "item_2"; "item_3"]
  ∧ num_lsr_sent (enqueue_for_late_stage_ranker s "item_3").1 = 3
  ∧ items_waiting_for_lsr (enqueue_for_late_stage_ranker s "item_3").1 = [].
Proof.
  intros s.
  pose proof (enqueue_spec s "item_3") as H.
  destruct H as (_ & H & _).
  - apply (bool_decide_unpack _); vm_compute; exact I.
  - destruct H as (_ & _ & _ & _ & _ & _ & _ & H).
    + reflexivity.
    + apply (bool_decide_unpack _); vm_compute; exact I.
    + destruct H as (H1 & H2 & H3 & H4); [vm_compute; discriminate|].
      rewrite H1, H2, H3, H4. split_and!; vm_compute; reflexivity.
Defined.

(** ** The timeout fallback (C5, C8) *)

(** C5.  For a non-negative [max_num_esr], [OnTimeOut] dispatches to the
    early-stage ranker the first [max_num_esr] entries of the store's items
    ranked by estimate, largest first (a permutation of the store, equal
    estimates in store order), without those whose item is in the sent-set.
    With the estimates a:5, b:3, c:9, d:1 and [max_num_esr = 2] it dispatches
    [(c,9), (a,5)] when neither a nor c is sent, and [(c,9), (b,3)] when a is
    sent and b and c are not. *)
Theorem OnTimeOut_spec :
  (∀ s : CandidateGeneratorService, 0 <= max_num_esr s →
     ∃ ranked,
       ranked ≡ₚ uv_dict s
       ∧ StronglySorted value_ge ranked
       ∧ (∀ v, filter (λ z : string * Q, Qeq_bool z.2 v = true) ranked
               = filter (λ z : string * Q, Qeq_bool z.2 v = true) (uv_dict s))
       ∧ OnTimeOut s
         = (s, [EarlyStageRanker
                  (take (Z.to_nat (max_num_esr s))
                     (filter (λ x : string * Q, x.1 ∉ already_sent s) ranked))]))
  ∧ (∀ s : CandidateGeneratorService,
       uv_dict s = [("a", 5%Q); ("b", 3%Q); ("c", 9%Q); ("d", 1%Q)] →
       max_num_esr s = 2 →
       "a" ∉ already_sent s → "c" ∉ already_sent s →
       OnTimeOut s = (s, [EarlyStageRanker [("c", 9%Q); ("a", 5%Q)]]))
  ∧ (∀ s : CandidateGeneratorService,
       uv_dict s = [("a", 5%Q); ("b", 3%Q); ("c", 9%Q); ("d", 1%Q)] →
       max_num_esr s = 2 →
       "a" ∈ already_sent s → "b" ∉ already_sent s → "c" ∉ already_sent s →
       OnTimeOut s = (s, [EarlyStageRanker [("c", 9%Q); ("b", 3%Q)]])).
Proof.
  split_and!.
  - intros s Hn. exists (sorted_by_value_desc (uv_dict s)). split_and!.
    + apply sorted_by_value_desc_perm.
    + apply sorted_by_value_desc_sorted.
    + intros v. apply sorted_by_value_desc_stable.
    + unfold OnTimeOut, send_to_early_stage_ranker.
      by rewrite py_slice_to_nonneg.
  - intros s Hd Hn Ha Hc.
    unfold OnTimeOut, send_to_early_stage_ranker. rewrite Hd, Hn.
    change (sorted_by_value_desc
              [("a", 5%Q); ("b", 3%Q); ("c", 9%Q); ("d", 1%Q)])
      with [("c", 9%Q); ("a", 5%Q); ("b", 3%Q); ("d", 1%Q)].
    rewrite !filter_cons. simpl.
    rewrite (decide_True (P := "c" ∉ already_sent s)) by done.
    by rewrite (decide_True (P := "a" ∉ already_sent s)) by done.
  - intros s Hd Hn Ha Hb Hc.
    unfold OnTimeOut, send_to_early_stage_ranker. rewrite Hd, Hn.
    change (sorted_by_value_desc
              [("a", 5%Q); ("b", 3%Q); ("c", 9%Q); ("d", 1%Q)])
      with [("c", 9%Q); ("a", 5%Q); ("b", 3%Q); ("d", 1%Q)].
    rewrite !filter_cons. simpl.
    rewrite (decide_True (P := "c" ∉ already_sent s)) by done.
    rewrite (decide_False (P := "a" ∉ already_sent s)) by (by intros ?).
    by rewrite (decide_True (P := "b" ∉ already_sent s)) by done.
Qed.

Lemma OnTimeOut_spec_witness :
  let s0 := init 1 4%Q 2 1 score_only_weights in
  let results :=
    [mkGeneratorResult "a" 1 5%Q; mkGeneratorResult "b" 1 3%Q;
     mkGeneratorResult "c" 1 9%Q; mkGeneratorResult "d" 1 1%Q] in
  let s := (OnGeneratorCompletion log2_pow2 s0 1 results).1 in
  OnTimeOut s = (s, [EarlyStageRanker [("c", 9%Q); ("b", 3%Q)]])
  ∧ OnTimeOut (init 10 1.1%Q 2 3 ∅) = (init 10 1.1%Q 2 3 ∅, [EarlyStageRanker []]).
Proof.
  intros s0 results s.
  destruct OnTimeOut_spec as (Hgen & _ & Hsent). split.
  - apply Hsent.
    + vm_compute. reflexivity.
    + reflexivity.
    + apply (bool_decide_unpack _); vm_compute; exact I.
    + apply (bool_decide_unpack _); vm_compute; exact I.
    + apply (bool_decide_unpack _); vm_compute; exact I.
  - destruct (Hgen (init 10 1.1%Q 2 3 ∅)) as (ranked & Hp & _ & _ & ->).
    + simpl. lia.
    + simpl in Hp. apply Permutation_nil_r in Hp. by subst.
Defined.

(** C8.  [OnTimeOut] returns the service as it was: the estimate store, the
    queue, the sent-set and the counter are unchanged.  None of the items it
    dispatches is in the sent-set afterwards, so a later result for such an
    item whose estimate exceeds the threshold is handed to the enqueue
    operation. *)
Theorem OnTimeOut_frame
    (log2 : Q → Q) (s : CandidateGeneratorService) :
  (OnTimeOut s).1 = s
  ∧ ∃ top_K_items,
      (OnTimeOut s).2 = [EarlyStageRanker top_K_items]
      ∧ (∀ x, x ∈ top_K_items → x.1 ∉ already_sent (OnTimeOut s).1)
      ∧ (∀ generator_id r,
           item_id r ∈ top_K_items.*1 →
           (lsr_sufficiency_threshold s
            < calculate_user_value_estimate log2 s generator_id
                (rank r) (score r))%Q →
           on_result log2 generator_id (OnTimeOut s).1 r
           = enqueue_for_late_stage_ranker (stored log2 generator_id s r)
               (item_id r)).
Proof.
  split; [done|]. eexists. split; [reflexivity|].
  assert (∀ x, x ∈ py_slice_to
                     (filter (λ x : string * Q, x.1 ∉ already_sent s)
                        (sorted_by_value_desc (uv_dict s))) (max_num_esr s) →
               x.1 ∉ already_sent s) as Hunsent.
  { intros x Hx. unfold py_slice_to in Hx.
    destruct (0 <=? max_num_esr s);
      apply (subseteq_take _ _ x) in Hx;
      by apply list_elem_of_filter in Hx as [? _]. }
  split; [exact Hunsent|].
  intros generator_id r Hr He. simpl.
  apply on_result_enqueues; [done|].
  apply list_elem_of_fmap in Hr as (x & -> & Hx). by apply Hunsent.
Qed.

Lemma OnTimeOut_frame_witness :
  let s0 := init 10 2%Q 2 3 example_weights in
  let r := mkGeneratorResult "item_1" 1 0.9%Q in
  let s := (OnGeneratorCompletion log2_pow2 s0 1 [r]).1 in
  let r' := mkGeneratorResult "item_1" 1 2%Q in
  (OnTimeOut s).2 = [EarlyStageRanker [("item_1", 1.4200%Q)]]
  ∧ on_result log2_pow2 1 (OnTimeOut s).1 r'
    = enqueue_for_late_stage_ranker (stored log2_pow2 1 s r') "item_1".
Proof.
  intros s0 r s r'. split; [vm_compute; reflexivity|].
  destruct (OnTimeOut_frame log2_pow2 s) as (_ & top & Hout & _ & Hlater).
  apply (Hlater 1 r').
  - assert (top = [("item_1", 1.4200%Q)]) as ->.
    { assert ((OnTimeOut s).2 = [EarlyStageRanker [("item_1", 1.4200%Q)]])
        as Hc by (vm_compute; reflexivity).
      rewrite Hout in Hc. by injection Hc. }
    simpl. apply list_elem_of_here.
  - vm_compute. reflexivity.
Defined.

(** ** Scoring (C6) *)




(** ** Dispatch to the late-stage ranker (C7) *)

(** C7.  Over any sequence of generator completions and timeouts on a fresh
    service, the item ids dispatched to the late-stage ranker, batch after
    batch, are pairwise distinct; so no item is in two of the dispatched
    batches, nor twice in one. *)
Theorem late_stage_dispatch_at_most_once
    (log2 : Q → Q) (max_lsr : Z) (threshold : Q) (max_esr batch : Z)
    (w : gmap Z (Q * Q * Q)) (calls : list Call) :
  let out := (run log2 (init max_lsr threshold max_esr batch w) calls).2 in
  NoDup (late_stage_items out)
  ∧ ∀ (i j : nat) (b1 b2 : list string) (item : string),
      out !! i = Some (LateStageRanker b1) →
      out !! j = Some (LateStageRanker b2) →
      item ∈ b1 → item ∈ b2 → i = j.
Proof.
  intros out.
  assert (NoDup (late_stage_items out)) as Hnd by apply run_fresh.
  split; [exact Hnd|]. by apply late_stage_items_batches.
Qed.

Lemma late_stage_dispatch_at_most_once_witness :
  let calls :=
    [Completion 1 [mkGeneratorResult "item_1" 1 0.9%Q;
                   mkGeneratorResult "item_2" 1 0.8%Q];
     TimeOut;
     Completion 2 [mkGeneratorResult "item_1" 1 0.9%Q;
                   mkGeneratorResult "item_3" 1 0.7%Q;
                   mkGeneratorResult "item_2" 1 0.8%Q;
                   mkGeneratorResult "item_4" 1 0.7%Q]] in
  (run log2_pow2 (init 10 1.1%Q 5 2 example_weights) calls).2
  = [LateStageRanker ["item_1"; "item_2"];
     EarlyStageRanker [];
     LateStageRanker ["item_3"; "item_4"]]
  ∧ 0%nat = 0%nat.
Proof.
  intros calls. split; [vm_compute; reflexivity|].
  apply (proj2 (late_stage_dispatch_at_most_once log2_pow2 10 1.1%Q 5 2
                  example_weights calls)
           0%nat 0%nat ["item_1"; "item_2"] ["item_1"; "item_2"] "item_1").
  - vm_compute. reflexivity.
  - vm_compute. reflexivity.
  - apply (bool_decide_unpack _); vm_compute; exact I.
  - apply (bool_decide_unpack _); vm_compute; exact I.
Defined.

(** * Further properties of the service *)

(** ** Lifting a property of single steps to whole executions *)

Section Lift.

Variable log2 : Q → Q.
Variable R : CandidateGeneratorService → CandidateGeneratorService →
             list Dispatch → Prop.

Hypothesis R_nil : ∀ s, R s s [].
Hypothesis R_seq : ∀ s s1 s2 out1 out2,
  R s s1 out1 → R s1 s2 out2 → R s s2 (out1 ++ out2).
Hypothesis R_on_result : ∀ generator_id s r,
  R s (on_result log2 generator_id s r).1 (on_result log2 generator_id s r).2.
Hypothesis R_OnTimeOut : ∀ s, R s (OnTimeOut s).1 (OnTimeOut s).2.

Lemma lift_OnGeneratorCompletion s generator_id results :
  R s (OnGeneratorCompletion log2 s generator_id results).1
    (OnGeneratorCompletion log2 s generator_id results).2.
Proof.
  revert s. induction results as [|r rs IH]; intros s; simpl; [apply R_nil|].
  pose proof (R_on_result generator_id s r) as H1.
  destruct (on_result log2 generator_id s r) as [s1 o1]. specialize (IH s1).
  destruct (OnGeneratorCompletion log2 s1 generator_id rs) as [s2 o2].
  by eapply R_seq.
Qed.

Lemma lift_run s calls : R s (run log2 s calls).1 (run log2 s calls).2.
Proof.
  revert s. induction calls as [|c cs IH]; intros s; simpl; [apply R_nil|].
  assert (R s (call log2 s c).1 (call log2 s c).2) as H1.
  { destruct c; simpl; [apply lift_OnGeneratorCompletion | apply R_OnTimeOut]. }
  destruct (call log2 s c) as [s1 o1]. specialize (IH s1).
  destruct (run log2 s1 cs) as [s2 o2]. by eapply R_seq.
Qed.

Hypothesis R_enqueue : ∀ s item,
  R s (enqueue_for_late_stage_ranker s item).1
    (enqueue_for_late_stage_ranker s item).2.
Hypothesis R_send : ∀ s,
  R s (send_to_late_stage_ranker s).1 (send_to_late_stage_ranker s).2.

Lemma lift_run_methods s ms :
  R s (run_methods log2 s ms).1 (run_methods log2 s ms).2.
Proof.
  revert s. induction ms as [|m ms IH]; intros s; simpl; [apply R_nil|].
  assert (R s (invoke log2 s m).1 (invoke log2 s m).2) as H1.
  { destruct m; simpl;
      [apply lift_OnGeneratorCompletion | apply R_OnTimeOut
      | apply R_enqueue | apply R_send]. }
  destruct (invoke log2 s m) as [s1 o1]. specialize (IH s1).
  destruct (run_methods log2 s1 ms) as [s2 o2]. by eapply R_seq.
Qed.

End Lift.

Lemma run_as_methods (log2 : Q → Q) s calls :
  run log2 s calls = run_methods log2 s (as_method <$> calls).
Proof.
  revert s. induction calls as [|c cs IH]; intros s; [done|].
  simpl. replace (invoke log2 s (as_method c)) with (call log2 s c)
    by (by destruct c).
  destruct (call log2 s c) as [s1 o1]. by rewrite IH.
Qed.

(** ** The counter, the sent-set and the dispatch log *)

Lemma accounted_nil s s' :
  num_lsr_sent s' = num_lsr_sent s → already_sent s' = already_sent s →
  accounted s s' [].
Proof.
  intros Hn Hs. split; simpl; [lia|]. rewrite Hs. set_solver.
Qed.

Lemma accounted_seq s s1 s2 out1 out2 :
  accounted s s1 out1 → accounted s1 s2 out2 → accounted s s2 (out1 ++ out2).
Proof.
  intros [Hn1 Hs1] [Hn2 Hs2]. unfold accounted.
  rewrite late_stage_items_app, length_app, list_to_set_app_L.
  split; [lia|]. rewrite Hs2, Hs1. set_solver.
Qed.

Lemma send_to_late_stage_ranker_accounted s :
  accounted s (send_to_late_stage_ranker s).1 (send_to_late_stage_ranker s).2.
Proof.
  unfold send_to_late_stage_ranker.
  destruct (flush_loop_spec (items_waiting_for_lsr s) (already_sent s))
    as (_ & Hin & Hs & _).
  destruct (flush_loop _ _) as [items sent]. simpl in *.
  unfold accounted. simpl. rewrite app_nil_r. split; [done|].
  rewrite Hs. apply set_eq. intros x.
  rewrite !elem_of_union, !elem_of_list_to_set, Hin.
  destruct (decide (x ∈ already_sent s)); tauto.
Qed.

Lemma enqueue_for_late_stage_ranker_accounted s item :
  accounted s (enqueue_for_late_stage_ranker s item).1
    (enqueue_for_late_stage_ranker s item).2.
Proof.
  unfold enqueue_for_late_stage_ranker.
  destruct (_ && _); [|by apply accounted_nil].
  destruct (_ <=? _); [|by apply accounted_nil].
  apply (send_to_late_stage_ranker_accounted (set_items_waiting_for_lsr s _)).
Qed.

Lemma on_result_accounted log2 generator_id s r :
  accounted s (on_result log2 generator_id s r).1
    (on_result log2 generator_id s r).2.
Proof.
  unfold on_result. destruct (_ && _); [|by apply accounted_nil].
  apply (enqueue_for_late_stage_ranker_accounted (set_uv_dict s _)).
Qed.

Lemma run_methods_accounted log2 s ms :
  accounted s (run_methods log2 s ms).1 (run_methods log2 s ms).2.
Proof.
  apply lift_run_methods.
  - intros s0. by apply accounted_nil.
  - apply accounted_seq.
  - apply on_result_accounted.
  - intros s0. by apply accounted_nil.
  - apply enqueue_for_late_stage_ranker_accounted.
  - apply send_to_late_stage_ranker_accounted.
Qed.

Lemma run_methods_fresh log2 s ms :
  dispatches_fresh s (run_methods log2 s ms).1 (run_methods log2 s ms).2.
Proof.
  apply lift_run_methods.
  - intros s0. by apply dispatches_fresh_nil.
  - apply dispatches_fresh_seq.
  - apply on_result_fresh.
  - intros s0. by apply dispatches_fresh_nil.
  - apply enqueue_for_late_stage_ranker_fresh.
  - apply send_to_late_stage_ranker_fresh.
Qed.

(** X1.  Whatever public methods are called on a service, in whatever state
    it starts, the counter grows by exactly the number of items handed to the
    late-stage ranker and the sent-set by exactly those items.  When the
    counter starts equal to the size of the sent-set, as on a fresh service,
    it stays equal to it. *)
Theorem counter_counts_dispatched_items
    (log2 : Q → Q) (s : CandidateGeneratorService) (ms : list Method) :
  let s' := (run_methods log2 s ms).1 in
  let sent_now := late_stage_items (run_methods log2 s ms).2 in
  num_lsr_sent s' = num_lsr_sent s + Z.of_nat (length sent_now)
  ∧ already_sent s' = already_sent s ∪ list_to_set sent_now
  ∧ (num_lsr_sent s = Z.of_nat (size (already_sent s)) →
     num_lsr_sent s' = Z.of_nat (size (already_sent s'))).
Proof.
  intros s' sent_now.
  destruct (run_methods_accounted log2 s ms) as [Hn Hs].
  destruct (run_methods_fresh log2 s ms) as (Hnd & Hin & _).
  fold s' in Hn, Hs. fold sent_now in Hn, Hs, Hnd, Hin.
  split_and!; [done|done|]. intros H0. rewrite Hn, Hs, H0.
  rewrite size_union.
  - rewrite size_list_to_set by done. lia.
  - intros x Hx Hx'. apply elem_of_list_to_set in Hx'.
    by destruct (Hin _ Hx').
Qed.

Lemma counter_counts_dispatched_items_witness :
  let ms :=
    [CallOnGeneratorCompletion 1
       [mkGeneratorResult "a" 1 0.9%Q; mkGeneratorResult "b" 1 0.9%Q];
     CallSend; CallEnqueue "a"; CallEnqueue "c"; CallOnTimeOut; CallSend] in
  let s' := (run_methods log2_pow2 (init 10 1.1%Q 5 3 example_weights) ms).1 in
  num_lsr_sent s' = Z.of_nat (size (already_sent s')).
Proof.
  intros ms s'.
  apply (counter_counts_dispatched_items log2_pow2
           (init 10 1.1%Q 5 3 example_weights) ms).
  reflexivity.
Defined.

(** X2.  Whatever public methods are called on a service, in whatever state
    it starts, the items handed to the late-stage ranker are pairwise
    distinct and none of them was in the sent-set at the start: direct calls
    of enqueue and send cannot make the service dispatch an item twice. *)
Theorem no_method_dispatches_twice
    (log2 : Q → Q) (s : CandidateGeneratorService) (ms : list Method) :
  let sent_now := late_stage_items (run_methods log2 s ms).2 in
  NoDup sent_now ∧ ∀ x, x ∈ sent_now → x ∉ already_sent s.
Proof.
  intros sent_now.
  destruct (run_methods_fresh log2 s ms) as (Hnd & Hin & _).
  split; [done|]. intros x Hx. by destruct (Hin _ Hx).
Qed.

Lemma no_method_dispatches_twice_witness :
  let s := (run_methods log2_pow2 (init 10 1.1%Q 5 1 example_weights)
              [CallEnqueue "a"]).1 in
  let ms := [CallEnqueue "a"; CallEnqueue "b"; CallSend] in
  late_stage_items (run_methods log2_pow2 s ms).2 = ["b"]
  ∧ "b" ∉ already_sent s.
Proof.
  intros s ms. split; [vm_compute; reflexivity|].
  apply (proj2 (no_method_dispatches_twice log2_pow2 s ms) "b").
  apply (bool_decide_unpack _); vm_compute; exact I.
Defined.

(** ** The outcomes of one loop iteration *)

(** Under the queue invariant an iteration of the loop of
    [OnGeneratorCompletion] only updates the store, or also queues the item,
    or also flushes the queue with the item as its last element. *)
Lemma on_result_cases (log2 : Q → Q) generator_id s r :
  queue_ok s →
  let s1 := stored log2 generator_id s r in
  let batch := items_waiting_for_lsr s ++ [item_id r] in
  on_result log2 generator_id s r = (s1, [])
  ∨ (num_lsr_sent s < max_num_lsr s
     ∧ Z.of_nat (length batch) < lsr_batch_size s
     ∧ (lsr_sufficiency_threshold s
        < calculate_user_value_estimate log2 s generator_id (rank r) (score r))%Q
     ∧ on_result log2 generator_id s r
       = (set_items_waiting_for_lsr s1 batch, []))
  ∨ (num_lsr_sent s < max_num_lsr s
     ∧ lsr_batch_size s <= Z.of_nat (length batch)
     ∧ (lsr_sufficiency_threshold s
        < calculate_user_value_estimate log2 s generator_id (rank r) (score r))%Q
     ∧ on_result log2 generator_id s r
       = (set_flushed s1 (already_sent s ∪ list_to_set batch)
            (num_lsr_sent s + Z.of_nat (length batch)),
          [LateStageRanker batch])).
Proof.
  intros (Hnd & Hdisj & Hlen) s1 batch.
  destruct (Qlt_le_dec (lsr_sufficiency_threshold s)
              (calculate_user_value_estimate log2 s generator_id
                 (rank r) (score r))) as [He|He];
    [|left; apply on_result_skip; intros [He' _];
      destruct (Qlt_not_le _ _ He' He)].
  destruct (decide (item_id r ∈ already_sent s)) as [Hs|Hs];
    [left; apply on_result_skip; tauto|].
  destruct (decide (num_lsr_sent s < max_num_lsr s
                    ∧ item_id r ∉ items_waiting_for_lsr s)) as [[Hb Hq]|Hno].
  - destruct (decide (lsr_batch_size s <= Z.of_nat (length batch))) as [Hfl|Hfl].
    + right; right. split_and!; try done.
      apply on_result_flushes; try done.
      apply NoDup_app. split_and!; [done| |apply NoDup_singleton].
      intros x Hx ->%list_elem_of_singleton. done.
    + right; left. split_and!; try done; [lia|].
      apply on_result_queues; try done. fold batch. lia.
  - left. rewrite on_result_enqueues by done. apply enqueue_noop. simpl.
    destruct (decide (item_id r ∈ items_waiting_for_lsr s)); [by right|].
    left. destruct (decide (max_num_lsr s <= num_lsr_sent s)); [done|].
    destruct Hno. split; [lia|done].
Qed.

(** ** Batches and the budget *)

Lemma late_stage_batches_app out1 out2 :
  late_stage_batches (out1 ++ out2)
  = late_stage_batches out1 ++ late_stage_batches out2.
Proof.
  induction out1 as [|[items|top] out1 IH]; simpl; [done| |done].
  by rewrite IH.
Qed.

Lemma full_batches_nil s : full_batches s s [].
Proof.
  intros Hb Hs. split_and!; [apply same_config_refl | done | constructor].
Qed.

Lemma full_batches_seq s s1 s2 out1 out2 :
  full_batches s s1 out1 → full_batches s1 s2 out2 →
  full_batches s s2 (out1 ++ out2).
Proof.
  intros H1 H2 Hb Hs. destruct (H1 Hb Hs) as (Hc1 & Hs1 & Hf1).
  pose proof Hc1 as (_ & _ & _ & Hbs & _).
  destruct H2 as (Hc2 & Hs2 & Hf2); [by rewrite Hbs | done |].
  split_and!; [by eapply same_config_trans | done |].
  rewrite late_stage_batches_app. apply Forall_app. split; [done|].
  by rewrite <- Hbs.
Qed.

Lemma on_result_full_batches log2 generator_id s r :
  full_batches s (on_result log2 generator_id s r).1
    (on_result log2 generator_id s r).2.
Proof.
  intros Hb (Hq & Hdiv & Hmax).
  pose proof (on_result_config log2 generator_id s r) as Hc.
  pose proof (on_result_queue_ok log2 generator_id s r Hq) as Hq'.
  split; [done|].
  destruct (on_result_cases log2 generator_id s r Hq)
    as [E|[(Hn & Hlen & _ & E)|(Hn & Hlen & _ & E)]];
    rewrite E in Hq' |- *; simpl in *.
  - split; [|constructor]. by split_and!.
  - split; [|constructor]. by split_and!.
  - destruct Hq as (_ & _ & Hshort).
    assert (Z.of_nat (length (items_waiting_for_lsr s ++ [item_id r]))
            = lsr_batch_size s) as Hfull.
    { rewrite length_app in *. simpl in *.
      destruct Hshort as [Hnil|Hshort]; [rewrite Hnil in *; simpl in *|]; lia. }
    split; [|by repeat constructor]. split_and!; [done| |]; simpl.
    + rewrite Hfull. by apply Z.divide_add_r, Z.divide_refl.
    + lia.
Qed.

Lemma run_full_batches log2 s calls :
  full_batches s (run log2 s calls).1 (run log2 s calls).2.
Proof.
  apply lift_run.
  - apply full_batches_nil.
  - apply full_batches_seq.
  - apply on_result_full_batches.
  - intros s0. apply full_batches_nil.
Qed.

(** X4.  On a fresh service with a batch size of at least 1, every batch
    handed to the late-stage ranker by any sequence of generator completions
    and timeouts has exactly [lsr_batch_size] items, and the counter is a
    multiple of the batch size. *)
Theorem late_stage_batches_are_full
    (log2 : Q → Q) (max_lsr : Z) (threshold : Q) (max_esr batch : Z)
    (w : gmap Z (Q * Q * Q)) (calls : list Call) :
  1 <= batch →
  let result := run log2 (init max_lsr threshold max_esr batch w) calls in
  Forall (λ b, Z.of_nat (length b) = batch) (late_stage_batches result.2)
  ∧ (batch | num_lsr_sent result.1).
Proof.
  intros Hb result.
  destruct (run_full_batches log2 (init max_lsr threshold max_esr batch w)
              calls) as ((_ & _ & _ & Hbs & _) & (_ & Hdiv & _) & Hf).
  - done.
  - split_and!; [apply queue_ok_init | apply Z.divide_0_r | simpl; lia].
  - fold result in Hbs, Hdiv, Hf. simpl in *. split; [done|].
    by rewrite <- Hbs.
Qed.

Lemma late_stage_batches_are_full_witness :
  let results :=
    (λ item, mkGeneratorResult item 1 0.9%Q)
      <$> ["a"; "b"; "c"; "d"; "e"; "f"; "g"] in
  let result :=
    run log2_pow2 (init 10 1.1%Q 5 3 example_weights)
      [Completion 1 results; TimeOut] in
  late_stage_batches result.2 = [["a"; "b"; "c"]; ["d"; "e"; "f"]]
  ∧ (3 | num_lsr_sent result.1).
Proof.
  intros results result. split; [vm_compute; reflexivity|].
  apply (late_stage_batches_are_full log2_pow2 10 1.1%Q 5 3 example_weights
           [Completion 1 results; TimeOut]).
  lia.
Defined.

(** X5.  On a fresh service with a batch size of at least 1, no sequence of
    generator completions and timeouts takes the counter beyond
    [max_num_lsr + lsr_batch_size - 1]: the ceiling is overshot by less than
    one batch (and the counter stays 0 when the ceiling is not positive). *)
Theorem overshoot_below_one_batch
    (log2 : Q → Q) (max_lsr : Z) (threshold : Q) (max_esr batch : Z)
    (w : gmap Z (Q * Q * Q)) (calls : list Call) :
  1 <= batch →
  let s := (run log2 (init max_lsr threshold max_esr batch w) calls).1 in
  0 <= num_lsr_sent s
  ∧ num_lsr_sent s <= Z.max 0 (max_lsr + batch - 1)
  ∧ (max_lsr <= 0 → num_lsr_sent s = 0).
Proof.
  intros Hb s.
  destruct (run_full_batches log2 (init max_lsr threshold max_esr batch w)
              calls) as ((Hm & _ & _ & Hbs & _) & (_ & Hdiv & Hmax) & _).
  - done.
  - split_and!; [apply queue_ok_init | apply Z.divide_0_r | simpl; lia].
  - fold s in Hm, Hbs, Hdiv, Hmax. simpl in *. rewrite Hm, Hbs in Hmax.
    destruct (run_methods_accounted log2
                (init max_lsr threshold max_esr batch w)
                (as_method <$> calls)) as (Hn & _).
    rewrite <- run_as_methods in Hn. fold s in Hn. simpl in Hn.
    split_and!; [lia | done |]. intros Hle.
    rewrite Hbs in Hdiv. destruct Hdiv as [k Hk].
    destruct (Z.le_gt_cases k 0); nia.
Qed.

Lemma overshoot_below_one_batch_witness :
  let results :=
    (λ item, mkGeneratorResult item 1 0.9%Q)
      <$> ["i01"; "i02"; "i03"; "i04"; "i05"; "i06"; "i07";
           "i08"; "i09"; "i10"; "i11"; "i12"; "i13"; "i14"] in
  let s := (run log2_pow2 (init 10 1.1%Q 5 3 example_weights)
              [Completion 1 results]).1 in
  num_lsr_sent s = 12 ∧ num_lsr_sent s <= Z.max 0 (10 + 3 - 1).
Proof.
  intros results s. split; [vm_compute; reflexivity|].
  apply (overshoot_below_one_batch log2_pow2 10 1.1%Q 5 3 example_weights
           [Completion 1 results]).
  lia.
Defined.

(** ** An exhausted budget *)

Lemma on_result_exhausted log2 generator_id s r :
  max_num_lsr s <= num_lsr_sent s →
  on_result log2 generator_id s r = (stored log2 generator_id s r, []).
Proof.
  intros Hex. unfold on_result. fold (stored log2 generator_id s r).
  destruct (_ && _); [|done]. apply enqueue_noop. simpl. by left.
Qed.

Lemma run_only_store_changes log2 s calls :
  only_store_changes s (run log2 s calls).1 (run log2 s calls).2.
Proof.
  apply lift_run.
  - intros s0 _. split_and!; first [apply same_config_refl | done].
  - intros s0 s1 s2 o1 o2 H1 H2 Hex.
    destruct (H1 Hex) as (Hc1 & Hn1 & Hs1 & Hq1 & Ho1).
    pose proof Hc1 as (Hm & _).
    destruct H2 as (Hc2 & Hn2 & Hs2 & Hq2 & Ho2); [lia|].
    split_and!; try congruence; [by eapply same_config_trans|].
    by rewrite late_stage_batches_app, Ho1, Ho2.
  - intros generator_id s0 r Hex. rewrite on_result_exhausted by done.
    split_and!; first [done | by repeat split].
  - intros s0 _. split_and!; first [apply same_config_refl | done].
Qed.

(** X6.  Once the counter has reached the ceiling, no sequence of generator
    completions and timeouts dispatches anything to the late-stage ranker or
    changes the counter, the sent-set or the queue: items left in the queue
    at that moment stay there for good. *)
Theorem exhausted_budget_is_final
    (log2 : Q → Q) (s : CandidateGeneratorService) (calls : list Call) :
  max_num_lsr s <= num_lsr_sent s →
  let result := run log2 s calls in
  late_stage_batches result.2 = []
  ∧ num_lsr_sent result.1 = num_lsr_sent s
  ∧ already_sent result.1 = already_sent s
  ∧ items_waiting_for_lsr result.1 = items_waiting_for_lsr s.
Proof.
  intros Hex result.
  destruct (run_only_store_changes log2 s calls Hex) as (_ & ? & ? & ? & ?).
  by split_and!.
Qed.

Lemma exhausted_budget_is_final_witness :
  let s := (run log2_pow2 (init 2 1.1%Q 5 2 example_weights)
              [Completion 1 [mkGeneratorResult "a" 1 0.9%Q;
                             mkGeneratorResult "b" 1 0.9%Q]]).1 in
  let result :=
    run log2_pow2 s
      [Completion 1 [mkGeneratorResult "c" 1 5%Q]; TimeOut] in
  num_lsr_sent s = 2
  ∧ late_stage_batches result.2 = []
  ∧ items_waiting_for_lsr result.1 = [].
Proof.
  intros s result. split; [vm_compute; reflexivity|].
  destruct (exhausted_budget_is_final log2_pow2 s
              [Completion 1 [mkGeneratorResult "c" 1 5%Q]; TimeOut])
    as (H1 & _ & _ & H2).
  - vm_compute. discriminate.
  - split; [exact H1 | exact H2].
Defined.

(** ** Only qualifying items are admitted *)

Lemma enqueue_members s item x :
  x ∈ items_waiting_for_lsr (enqueue_for_late_stage_ranker s item).1
  ∨ x ∈ already_sent (enqueue_for_late_stage_ranker s item).1 →
  x = item ∨ x ∈ items_waiting_for_lsr s ∨ x ∈ already_sent s.
Proof.
  unfold enqueue_for_late_stage_ranker.
  destruct (_ && _); [|tauto]. simpl.
  destruct (_ <=? _).
  - pose proof (send_to_late_stage_ranker_sent
                  (set_items_waiting_for_lsr s
                     (items_waiting_for_lsr s ++ [item]))) as [Hs _].
    rewrite Hs. simpl.
    assert (items_waiting_for_lsr
              (send_to_late_stage_ranker
                 (set_items_waiting_for_lsr s
                    (items_waiting_for_lsr s ++ [item]))).1 = []) as ->.
    { unfold send_to_late_stage_ranker. by destruct (flush_loop _ _). }
    set_solver.
  - simpl. set_solver.
Qed.

Lemma on_result_admitted_above_threshold log2 generator_id s r :
  admitted_above_threshold s →
  admitted_above_threshold (on_result log2 generator_id s r).1.
Proof.
  intros Hinv.
  assert (admitted_above_threshold (stored log2 generator_id s r)) as H1.
  { intros x Hx. simpl in *. destruct (Hinv x Hx) as (v & Hv & Hlt).
    destruct (decide (item_id r = x)) as [<-|Hne].
    - rewrite dict_get_set_eq. eexists. split; [done|].
      unfold merged_estimate. rewrite Hv. simpl.
      eapply Qlt_le_trans; [exact Hlt | apply py_max_l].
    - rewrite dict_get_set_ne by done. by exists v. }
  destruct (Qlt_le_dec (lsr_sufficiency_threshold s)
              (calculate_user_value_estimate log2 s generator_id
                 (rank r) (score r))) as [He|He];
    [|rewrite on_result_skip; [done|];
      intros [He' _]; destruct (Qlt_not_le _ _ He' He)].
  destruct (decide (item_id r ∈ already_sent s)) as [Hs|Hs];
    [rewrite on_result_skip; [done|tauto]|].
  rewrite on_result_enqueues by done.
  intros x Hx. apply enqueue_members in Hx.
  pose proof (enqueue_for_late_stage_ranker_frame
                (stored log2 generator_id s r) (item_id r))
    as [(_ & -> & _) ->].
  destruct Hx as [->|Hx]; [|by apply H1].
  simpl. rewrite dict_get_set_eq. eexists. split; [done|].
  eapply Qlt_le_trans; [exact He | apply py_max_r].
Qed.

(** X7.  On a fresh service, after any sequence of generator completions and
    timeouts, every item that was handed to the late-stage ranker, and every
    item waiting in the queue, has a stored estimate strictly above the
    threshold. *)
Theorem only_items_above_threshold_are_admitted
    (log2 : Q → Q) (max_lsr : Z) (threshold : Q) (max_esr batch : Z)
    (w : gmap Z (Q * Q * Q)) (calls : list Call) :
  let result := run log2 (init max_lsr threshold max_esr batch w) calls in
  ∀ x, x ∈ late_stage_items result.2 ∨ x ∈ items_waiting_for_lsr result.1 →
       ∃ v, dict_get (uv_dict result.1) x = Some v ∧ (threshold < v)%Q.
Proof.
  intros result x Hx.
  assert (admitted_above_threshold result.1) as Hinv.
  { apply (lift_run log2 (λ s s' _,
             admitted_above_threshold s → admitted_above_threshold s'));
      try done; try tauto.
    - intros. by apply on_result_admitted_above_threshold.
    - intros y [Hy|Hy]; simpl in Hy; set_solver. }
  pose proof (run_config log2 (init max_lsr threshold max_esr batch w) calls)
    as (_ & Ht & _).
  fold result in Ht. simpl in Ht. rewrite <- Ht. apply Hinv.
  destruct Hx as [Hx|Hx]; [right | by left].
  destruct (run_fresh log2 (init max_lsr threshold max_esr batch w) calls)
    as (_ & Hin & _).
  by destruct (Hin _ Hx).
Qed.

Lemma only_items_above_threshold_are_admitted_witness :
  let result :=
    run log2_pow2 (init 10 1.1%Q 5 2 example_weights)
      [Completion 1 [mkGeneratorResult "a" 1 0.9%Q;
                     mkGeneratorResult "b" 1 0.1%Q;
                     mkGeneratorResult "c" 1 0.8%Q]] in
  late_stage_items result.2 = ["a"; "c"]
  ∧ ∃ v, dict_get (uv_dict result.1) "c" = Some v ∧ (1.1 < v)%Q.
Proof.
  intros result. split; [vm_compute; reflexivity|].
  apply (only_items_above_threshold_are_admitted log2_pow2 10 1.1%Q 5 2
           example_weights
           [Completion 1 [mkGeneratorResult "a" 1 0.9%Q;
                          mkGeneratorResult "b" 1 0.1%Q;
                          mkGeneratorResult "c" 1 0.8%Q]]).
  left. apply (bool_decide_unpack _); vm_compute; exact I.
Defined.

(** ** What the timeout selects *)

Lemma StronglySorted_sublist {A} (R : relation A) (l1 l2 : list A) :
  l1 `sublist_of` l2 → StronglySorted R l2 → StronglySorted R l1.
Proof.
  induction 1 as [|x l1 l2 Hsub IH|x l1 l2 Hsub IH]; intros Hs.
  - constructor.
  - apply StronglySorted_cons in Hs as [Hall Hs].
    apply StronglySorted_cons. split; [|by apply IH].
    rewrite Forall_forall in Hall |- *. intros y Hy. apply Hall.
    by eapply elem_of_sublist.
  - apply StronglySorted_cons in Hs as [_ Hs]. by apply IH.
Qed.

Lemma unsent_ranking_sorted s : StronglySorted value_ge (unsent_ranking s).
Proof.
  eapply StronglySorted_sublist;
    [apply sublist_filter | apply sorted_by_value_desc_sorted].
Qed.

Lemma unsent_ranking_elem s x :
  x ∈ unsent_ranking s ↔ x ∈ uv_dict s ∧ x.1 ∉ already_sent s.
Proof.
  unfold unsent_ranking.
  rewrite list_elem_of_filter, sorted_by_value_desc_perm. tauto.
Qed.

(** X8.  For a non-negative [max_num_esr], the list [OnTimeOut] hands to the
    early-stage ranker has at most [max_num_esr] entries, each an entry of
    the store for an unsent item, ordered by estimate, largest first.  It is
    a best selection: if an entry of the store for an unsent item is left
    out, the list is full and none of its entries has a smaller estimate.
    When the store has no item twice, neither has the list. *)
Theorem OnTimeOut_selects_best_unsent (s : CandidateGeneratorService) :
  0 <= max_num_esr s →
  ∃ top,
    OnTimeOut s = (s, [EarlyStageRanker top])
    ∧ Z.of_nat (length top) <= max_num_esr s
    ∧ (∀ x, x ∈ top → x ∈ uv_dict s ∧ x.1 ∉ already_sent s)
    ∧ StronglySorted value_ge top
    ∧ (∀ y, y ∈ uv_dict s → y.1 ∉ already_sent s → y ∉ top →
         Z.of_nat (length top) = max_num_esr s
         ∧ ∀ x, x ∈ top → (y.2 <= x.2)%Q)
    ∧ (NoDup (keys (uv_dict s)) → NoDup top.*1).
Proof.
  intros Hn. exists (take (Z.to_nat (max_num_esr s)) (unsent_ranking s)).
  pose proof (unsent_ranking_sorted s) as Hsorted.
  rewrite <- (take_drop (Z.to_nat (max_num_esr s)) (unsent_ranking s))
    in Hsorted.
  split_and!.
  - unfold OnTimeOut, send_to_early_stage_ranker.
    by rewrite py_slice_to_nonneg.
  - rewrite length_take. lia.
  - intros x Hx. apply unsent_ranking_elem. by eapply subseteq_take.
  - by eapply StronglySorted_app_1_l.
  - intros y Hy Hunsent Hout.
    assert (y ∈ drop (Z.to_nat (max_num_esr s)) (unsent_ranking s)) as Hdrop.
    { assert (y ∈ unsent_ranking s) as Hin by by apply unsent_ranking_elem.
      rewrite <- (take_drop (Z.to_nat (max_num_esr s))) in Hin.
      apply elem_of_app in Hin as [Hin|Hin]; [done|exact Hin]. }
    split.
    + rewrite length_take.
      destruct (decide (length (unsent_ranking s)
                        ≤ Z.to_nat (max_num_esr s))%nat) as [Hle|Hgt];
        [|lia].
      rewrite drop_ge in Hdrop by done. by apply elem_of_nil in Hdrop.
    + intros x Hx.
      apply (StronglySorted_app_1_elem_of _ _ _ x y Hsorted Hx Hdrop).
  - intros Hnd. unfold keys in Hnd.
    apply (sublist_NoDup _ (sorted_by_value_desc (uv_dict s)).*1).
    + by rewrite sorted_by_value_desc_perm.
    + apply fmap_sublist. etransitivity; [apply sublist_take|].
      apply sublist_filter.
Qed.

Lemma OnTimeOut_selects_best_unsent_witness :
  let s := (run log2_pow2 (init 1 4%Q 2 1 score_only_weights)
              [Completion 1 [mkGeneratorResult "a" 1 5%Q;
                             mkGeneratorResult "b" 1 3%Q;
                             mkGeneratorResult "c" 1 9%Q;
                             mkGeneratorResult "d" 1 1%Q]]).1 in
  ∃ top, OnTimeOut s = (s, [EarlyStageRanker top])
         ∧ Z.of_nat (length top) <= 2.
Proof.
  intros s.
  destruct (OnTimeOut_selects_best_unsent s) as (top & H1 & H2 & _).
  - vm_compute. discriminate.
  - exists top. split; [exact H1 | exact H2].
Defined.

(** ** Timeouts in the dispatch log *)

Lemma OnTimeOut_unsent s x :
  (∃ top, (OnTimeOut s).2 = [EarlyStageRanker top] ∧ x ∈ top) →
  x.1 ∉ already_sent s.
Proof.
  intros (top & [= <-] & Hx). unfold py_slice_to in Hx.
  destruct (0 <=? max_num_esr s);
    apply (subseteq_take _ _ x) in Hx;
    by apply list_elem_of_filter in Hx as [? _].
Qed.

Lemma early_after_late_app sent out1 out2 :
  early_after_late sent out1 →
  early_after_late (sent ∪ list_to_set (late_stage_items out1)) out2 →
  early_after_late sent (out1 ++ out2).
Proof.
  revert sent. induction out1 as [|[items|top] out1 IH]; intros sent H1 H2;
    simpl in *.
  - by replace sent with (sent ∪ (∅ : gset string)) by set_solver.
  - apply IH; [done|].
    by rewrite list_to_set_app_L, (assoc_L (∪)) in H2.
  - destruct H1 as [Htop H1]. split; [done|]. by apply IH.
Qed.

Lemma early_after_late_only_late sent out :
  (∀ d, d ∈ out → ∃ items, d = LateStageRanker items) →
  early_after_late sent out.
Proof.
  revert sent. induction out as [|d out IH]; intros sent Hall; [done|].
  destruct (Hall d) as [items ->]; [by constructor|]. simpl.
  apply IH. intros d' Hd'. apply Hall. by constructor.
Qed.

Lemma run_log_respects_sent log2 s calls :
  log_respects_sent s (run log2 s calls).1 (run log2 s calls).2.
Proof.
  apply lift_run.
  - intros s0. split; [done|]. simpl. set_solver.
  - intros s0 s1 s2 o1 o2 [H1 E1] [H2 E2]. split.
    + apply early_after_late_app; [done|]. by rewrite <- E1.
    + rewrite late_stage_items_app, list_to_set_app_L, E2, E1. set_solver.
  - intros generator_id s0 r. split;
      [|apply on_result_accounted].
    apply early_after_late_only_late. intros d Hd.
    unfold on_result in Hd. destruct (_ && _); [|by apply elem_of_nil in Hd].
    unfold enqueue_for_late_stage_ranker in Hd.
    destruct (_ && _); [|by apply elem_of_nil in Hd].
    destruct (_ <=? _); [|by apply elem_of_nil in Hd].
    unfold send_to_late_stage_ranker in Hd.
    destruct (flush_loop _ _) as [items sent]. simpl in Hd.
    apply list_elem_of_singleton in Hd. by exists items.
  - intros s0. split; [|simpl; set_solver]. simpl. split; [|done].
    intros x Hx. apply OnTimeOut_unsent. eexists. split; [done|exact Hx].
Qed.

Lemma early_after_late_lookup sent out (i j : nat) items top x :
  early_after_late sent out →
  out !! j = Some (EarlyStageRanker top) → x ∈ top →
  (x.1 ∉ sent)
  ∧ (out !! i = Some (LateStageRanker items) → (i < j)%nat → x.1 ∉ items).
Proof.
  revert sent i j. induction out as [|d out IH]; intros sent i j Hok Hj Hx;
    [done|].
  destruct j as [|j]; simpl in Hj.
  - injection Hj as ->. simpl in Hok. destruct Hok as [Htop _].
    split; [by apply Htop|]. lia.
  - destruct d as [items'|top']; simpl in Hok.
    + destruct i as [|i]; simpl.
      * destruct (IH _ 0%nat j Hok Hj Hx) as [Hns _].
        split; [set_solver|]. intros [= ->] _. set_solver.
      * destruct (IH _ i j Hok Hj Hx) as [Hns Hi].
        split; [set_solver|]. intros Hi' Hlt. apply Hi; [done|lia].
    + destruct Hok as [_ Hok]. destruct i as [|i]; simpl.
      * destruct (IH _ 0%nat j Hok Hj Hx) as [Hns _]. by split.
      * destruct (IH _ i j Hok Hj Hx) as [Hns Hi].
        split; [done|]. intros Hi' Hlt. apply Hi; [done|lia].
Qed.

(** X9.  In the dispatch log of any sequence of generator completions and
    timeouts, from any starting state, an item handed to the late-stage
    ranker never appears in a later hand-over to the early-stage ranker, and
    no early-stage hand-over contains an item of the starting sent-set. *)
Theorem no_early_stage_after_late_stage
    (log2 : Q → Q) (s : CandidateGeneratorService) (calls : list Call)
    (i j : nat) (items : list string) (top : list (string * Q))
    (x : string * Q) :
  let out := (run log2 s calls).2 in
  out !! j = Some (EarlyStageRanker top) → x ∈ top →
  (x.1 ∉ already_sent s)
  ∧ (out !! i = Some (LateStageRanker items) → (i < j)%nat → x.1 ∉ items).
Proof.
  intros out. apply early_after_late_lookup.
  apply run_log_respects_sent.
Qed.

Lemma no_early_stage_after_late_stage_witness :
  let calls :=
    [Completion 1 [mkGeneratorResult "a" 1 0.9%Q;
                   mkGeneratorResult "b" 1 0.1%Q];
     TimeOut] in
  let s := init 10 1.1%Q 5 1 example_weights in
  (run log2_pow2 s calls).2
  = [LateStageRanker ["a"]; EarlyStageRanker [("b", 0.7800%Q)]]
  ∧ (("b", 0.7800%Q).1 ∉ already_sent s).
Proof.
  intros calls s. split; [vm_compute; reflexivity|].
  apply (no_early_stage_after_late_stage log2_pow2 s calls 0%nat 1%nat
           ["a"] [("b", 0.7800%Q)] ("b", 0.7800%Q)).
  - vm_compute. reflexivity.
  - apply list_elem_of_here.
Defined.

(** ** Empty dispatches *)

(** X10.  A direct flush of an empty queue still hands a batch to the
    late-stage ranker, the empty one, and changes nothing; so does every
    flush that directly follows a flush. *)
Theorem flush_of_empty_queue (s : CandidateGeneratorService) :
  (items_waiting_for_lsr s = [] →
   send_to_late_stage_ranker s = (s, [LateStageRanker []]))
  ∧ send_to_late_stage_ranker (send_to_late_stage_ranker s).1
    = ((send_to_late_stage_ranker s).1, [LateStageRanker []]).
Proof.
  assert (∀ s0, items_waiting_for_lsr s0 = [] →
            send_to_late_stage_ranker s0 = (s0, [LateStageRanker []])) as H.
  { intros s0 Hq. unfold send_to_late_stage_ranker. rewrite Hq.
    unfold flush_loop. simpl. destruct s0; simpl in *. subst.
    unfold set_flushed. simpl. by rewrite Z.add_0_r. }
  split; [apply H|]. apply H.
  unfold send_to_late_stage_ranker. by destruct (flush_loop _ _).
Qed.

Lemma flush_of_empty_queue_witness :
  send_to_late_stage_ranker (init 10 1.1%Q 5 3 example_weights)
  = (init 10 1.1%Q 5 3 example_weights, [LateStageRanker []]).
Proof.
  apply (proj1 (flush_of_empty_queue (init 10 1.1%Q 5 3 example_weights))).
  reflexivity.
Defined.

(** X11.  [OnTimeOut] always hands exactly one list to the early-stage
    ranker, and that list is empty when every item of the store is in the
    sent-set (in particular when the store is empty) or when [max_num_esr]
    is 0, whatever the other settings are. *)
Theorem OnTimeOut_empty_selection (s : CandidateGeneratorService) :
  (∃ top, OnTimeOut s = (s, [EarlyStageRanker top]))
  ∧ ((∀ x, x ∈ uv_dict s → x.1 ∈ already_sent s) →
     OnTimeOut s = (s, [EarlyStageRanker []]))
  ∧ (max_num_esr s = 0 → OnTimeOut s = (s, [EarlyStageRanker []])).
Proof.
  split_and!.
  - by eexists.
  - intros Hall. unfold OnTimeOut, send_to_early_stage_ranker.
    assert (filter (λ x : string * Q, x.1 ∉ already_sent s)
              (sorted_by_value_desc (uv_dict s)) = []) as ->.
    { destruct (filter _ _) as [|y l] eqn:E; [done|].
      assert (y ∈ filter (λ x : string * Q, x.1 ∉ already_sent s)
                    (sorted_by_value_desc (uv_dict s))) as Hy
        by (rewrite E; constructor).
      apply list_elem_of_filter in Hy as [Hns Hy].
      rewrite sorted_by_value_desc_perm in Hy. destruct (Hns (Hall _ Hy)). }
    unfold py_slice_to. destruct (0 <=? max_num_esr s); by rewrite take_nil.
  - intros Hn. unfold OnTimeOut, send_to_early_stage_ranker, py_slice_to.
    by rewrite Hn.
Qed.

Lemma OnTimeOut_empty_selection_witness :
  let s := (run log2_pow2 (init 10 1.1%Q 5 1 example_weights)
              [Completion 1 [mkGeneratorResult "a" 1 0.9%Q]]).1 in
  OnTimeOut s = (s, [EarlyStageRanker []]).
Proof.
  intros s. apply (proj1 (proj2 (OnTimeOut_empty_selection s))).
  apply (proj1 (Forall_forall (λ x : string * Q, x.1 ∈ already_sent s) _)).
  apply (bool_decide_unpack _); vm_compute; exact I.
Defined.

(** ** Composition of calls *)

Lemma run_app (log2 : Q → Q) s calls1 calls2 :
  run log2 s (calls1 ++ calls2)
  = ((run log2 (run log2 s calls1).1 calls2).1,
     (run log2 s calls1).2 ++ (run log2 (run log2 s calls1).1 calls2).2).
Proof.
  revert s. induction calls1 as [|c cs IH]; intros s; simpl.
  - by destruct (run log2 s calls2).
  - destruct (call log2 s c) as [s1 o1]. rewrite IH.
    destruct (run log2 s1 cs) as [s2 o2]. simpl.
    destruct (run log2 s2 calls2) as [s3 o3]. simpl. by rewrite app_assoc.
Qed.

(** X12.  How a generator's results are cut into calls does not matter:
    delivering a list of results in one call or as two consecutive calls of
    the same generator gives the same state and the same dispatches; and a
    sequence of calls can be run in two parts. *)
Theorem completions_compose
    (log2 : Q → Q) (s : CandidateGeneratorService) (generator_id : Z)
    (results1 results2 : list GeneratorResult) (calls1 calls2 : list Call) :
  run log2 s [Completion generator_id (results1 ++ results2)]
  = run log2 s [Completion generator_id results1;
                Completion generator_id results2]
  ∧ run log2 s (calls1 ++ calls2)
    = ((run log2 (run log2 s calls1).1 calls2).1,
       (run log2 s calls1).2 ++ (run log2 (run log2 s calls1).1 calls2).2).
Proof.
  split; [|apply run_app]. simpl. rewrite OnGeneratorCompletion_app.
  destruct (OnGeneratorCompletion log2 s generator_id results1) as [s1 o1].
  destruct (OnGeneratorCompletion log2 s1 generator_id results2) as [s2 o2].
  by rewrite !app_nil_r.
Qed.

(** X13.  Timeouts do not influence the late-stage path: removing all
    timeouts from a sequence of calls leaves the final state and the batches
    handed to the late-stage ranker as they are. *)
Theorem timeouts_do_not_influence_late_stage
    (log2 : Q → Q) (s : CandidateGeneratorService) (calls : list Call) :
  (run log2 s calls).1 = (run log2 s (without_timeouts calls)).1
  ∧ late_stage_batches (run log2 s calls).2
    = late_stage_batches (run log2 s (without_timeouts calls)).2.
Proof.
  revert s. induction calls as [|[g rs|] cs IH]; intros s; [done| |].
  - simpl. destruct (OnGeneratorCompletion log2 s g rs) as [s1 o1].
    destruct (IH s1) as [H1 H2].
    destruct (run log2 s1 cs) as [s2 o2].
    destruct (run log2 s1 (without_timeouts cs)) as [s2' o2']. simpl in *.
    split; [done|]. by rewrite !late_stage_batches_app, H2.
  - simpl. destruct (IH s) as [H1 H2].
    destruct (run log2 s cs) as [s2 o2]. by simpl in *.
Qed.

(** ** The store does not depend on the admission path *)

Lemma on_result_store_only log2 generator_id s s' r :
  uv_dict s = uv_dict s' → weights s = weights s' →
  uv_dict (on_result log2 generator_id s r).1
  = uv_dict (on_result log2 generator_id s' r).1
  ∧ weights (on_result log2 generator_id s r).1
    = weights (on_result log2 generator_id s' r).1.
Proof.
  intros Hd Hw. rewrite !on_result_uv_dict. unfold merged_estimate.
  rewrite (estimate_weights log2 s' s) by done. rewrite Hd. split; [done|].
  pose proof (on_result_config log2 generator_id s r) as (_&_&_&_& ->).
  by pose proof (on_result_config log2 generator_id s' r) as (_&_&_&_& ->).
Qed.

Lemma OnGeneratorCompletion_store_only log2 generator_id s s' results :
  uv_dict s = uv_dict s' → weights s = weights s' →
  uv_dict (OnGeneratorCompletion log2 s generator_id results).1
  = uv_dict (OnGeneratorCompletion log2 s' generator_id results).1
  ∧ weights (OnGeneratorCompletion log2 s generator_id results).1
    = weights (OnGeneratorCompletion log2 s' generator_id results).1.
Proof.
  revert s s'. induction results as [|r rs IH]; intros s s' Hd Hw; [done|].
  simpl.
  destruct (on_result_store_only log2 generator_id s s' r Hd Hw) as [Hd1 Hw1].
  destruct (on_result log2 generator_id s r) as [s1 o1].
  destruct (on_result log2 generator_id s' r) as [s1' o1'].
  specialize (IH s1 s1' Hd1 Hw1).
  destruct (OnGeneratorCompletion log2 s1 generator_id rs) as [s2 o2].
  by destruct (OnGeneratorCompletion log2 s1' generator_id rs) as [s2' o2'].
Qed.

(** X14.  The estimate store is computed from the weights and the results
    alone: two services with the same store and the same weights have the
    same store after the same sequence of calls, whatever their thresholds,
    ceilings, batch sizes, queues, sent-sets and counters are. *)
Theorem store_independent_of_admission
    (log2 : Q → Q) (s s' : CandidateGeneratorService) (calls : list Call) :
  uv_dict s = uv_dict s' → weights s = weights s' →
  uv_dict (run log2 s calls).1 = uv_dict (run log2 s' calls).1.
Proof.
  revert s s'. induction calls as [|c cs IH]; intros s s' Hd Hw; [done|].
  simpl.
  assert (uv_dict (call log2 s c).1 = uv_dict (call log2 s' c).1
          ∧ weights (call log2 s c).1 = weights (call log2 s' c).1)
    as [Hd1 Hw1].
  { destruct c; simpl; [by apply OnGeneratorCompletion_store_only | done]. }
  destruct (call log2 s c) as [s1 o1]. destruct (call log2 s' c) as [s1' o1'].
  specialize (IH s1 s1' Hd1 Hw1).
  destruct (run log2 s1 cs) as [s2 o2].
  by destruct (run log2 s1' cs) as [s2' o2'].
Qed.

Lemma store_independent_of_admission_witness :
  let calls :=
    [Completion 1 [mkGeneratorResult "a" 1 0.9%Q;
                   mkGeneratorResult "b" 1 0.1%Q];
     TimeOut;
     Completion 2 [mkGeneratorResult "a" 3 0.2%Q]] in
  uv_dict (run log2_pow2 (init 10 1.1%Q 5 3 example_weights) calls).1
  = uv_dict (run log2_pow2 (init 0 (-7)%Q 0 1 example_weights) calls).1.
Proof.
  intros calls.
  apply (store_independent_of_admission log2_pow2
           (init 10 1.1%Q 5 3 example_weights)
           (init 0 (-7)%Q 0 1 example_weights) calls); reflexivity.
Defined.

(** ** The queue in reachable states *)

(** X3.  In every state that a fresh service reaches through generator
    completions and timeouts, the queue holds no item twice and no item of
    the sent-set; with a batch size of at least 1 it is shorter than a batch,
    and with a batch size of at most 1 it is empty. *)
Theorem queue_invariant
    (log2 : Q → Q) (max_lsr : Z) (threshold : Q) (max_esr batch : Z)
    (w : gmap Z (Q * Q * Q)) (calls : list Call) :
  let s := (run log2 (init max_lsr threshold max_esr batch w) calls).1 in
  NoDup (items_waiting_for_lsr s)
  ∧ (∀ x, x ∈ items_waiting_for_lsr s → x ∉ already_sent s)
  ∧ (1 <= batch → Z.of_nat (length (items_waiting_for_lsr s)) < batch)
  ∧ (batch <= 1 → items_waiting_for_lsr s = []).
Proof.
  intros s.
  destruct (run_queue_ok log2 (init max_lsr threshold max_esr batch w) calls
              (queue_ok_init _ _ _ _ _)) as (Hnd & Hdisj & Hlen).
  pose proof (run_config log2 (init max_lsr threshold max_esr batch w) calls)
    as (_ & _ & _ & Hb & _).
  fold s in Hnd, Hdisj, Hlen, Hb. simpl in Hb. rewrite Hb in Hlen.
  split_and!; [done|done| |].
  - intros H1. destruct Hlen as [->|Hlen]; simpl; lia.
  - intros H1. destruct Hlen as [Hnil|Hlen]; [done|].
    destruct (items_waiting_for_lsr s); [done|]. simpl in Hlen. lia.
Qed.

Lemma queue_invariant_witness :
  let s := (run log2_pow2 (init 10 1.1%Q 5 3 example_weights)
              [Completion 1 [mkGeneratorResult "a" 1 0.9%Q;
                             mkGeneratorResult "a" 1 0.9%Q;
                             mkGeneratorResult "b" 1 0.9%Q]]).1 in
  items_waiting_for_lsr s = ["a"; "b"]
  ∧ Z.of_nat (length (items_waiting_for_lsr s)) < 3.
Proof.
  intros s. split; [vm_compute; reflexivity|].
  apply (queue_invariant log2_pow2 10 1.1%Q 5 3 example_weights
           [Completion 1 [mkGeneratorResult "a" 1 0.9%Q;
                          mkGeneratorResult "a" 1 0.9%Q;
                          mkGeneratorResult "b" 1 0.9%Q]]).
  lia.
Defined.

(** ** The items of the store *)

Lemma dict_set_keys (d : dict Q) (k : string) (v : Q) :
  keys (dict_set d k v)
  = if decide (k ∈ keys d) then keys d else keys d ++ [k].
Proof.
  unfold keys. induction d as [|[k0 v0] d IH]; [done|].
  cbn [dict_set]. destruct (decide (k0 = k)) as [->|Hne].
  - rewrite !fmap_cons. cbn [fst]. rewrite decide_True; [done|]. constructor.
  - rewrite !fmap_cons, IH. cbn [fst].
    destruct (decide (k ∈ d.*1)) as [Hin|Hin].
    + rewrite decide_True; [done|]. by constructor.
    + rewrite decide_False; [done|].
      intros [?|?]%elem_of_cons; congruence.
Qed.

Lemma dict_get_keys (d : dict Q) (k : string) :
  k ∈ keys d ↔ is_Some (dict_get d k).
Proof.
  unfold keys. induction d as [|[k0 v0] d IH]; simpl.
  - split; [by intros ?%elem_of_nil | by intros [? ?]].
  - rewrite elem_of_cons. destruct (decide (k0 = k)) as [->|Hne].
    + split; [by eexists | by left].
    + rewrite <- IH. split; [intros [?|?]; [congruence|done] | by right].
Qed.

Lemma merged_is_Some (o : option Q) (es : list Q) :
  is_Some (merged o es) ↔ is_Some o ∨ es ≠ [].
Proof.
  destruct es as [|e es].
  - simpl. split; [by left | by intros [?|?]].
  - split; [by right|]. intros _.
    destruct (merged_nonempty o (e :: es)) as (v & -> & _); [done|].
    by eexists.
Qed.

(** X15.  No entry ever leaves the store or changes its place: after any
    sequence of calls the items of the store are the earlier ones, in their
    order, followed by the items first sighted since.  An item is in the
    store exactly if it was there before or an estimate was computed for it,
    and a store without a repeated item stays so. *)
Theorem store_items_are_kept_in_order
    (log2 : Q → Q) (s : CandidateGeneratorService) (calls : list Call) :
  let d' := uv_dict (run log2 s calls).1 in
  keys (uv_dict s) `prefix_of` keys d'
  ∧ (NoDup (keys (uv_dict s)) → NoDup (keys d'))
  ∧ (∀ item, item ∈ keys d'
             ↔ item ∈ keys (uv_dict s) ∨ estimates_for log2 s item calls ≠ []).
Proof.
  intros d'. subst d'.
  assert (keys (uv_dict s) `prefix_of` keys (uv_dict (run log2 s calls).1)
          ∧ (NoDup (keys (uv_dict s)) →
             NoDup (keys (uv_dict (run log2 s calls).1)))) as [Hp Hnd].
  { apply (lift_run log2 (λ s s' _,
             keys (uv_dict s) `prefix_of` keys (uv_dict s')
             ∧ (NoDup (keys (uv_dict s)) → NoDup (keys (uv_dict s'))))).
    - by intros s0.
    - intros s0 s1 s2 _ _ [H1 N1] [H2 N2].
      split; [by etransitivity | tauto].
    - intros generator_id s0 r. rewrite on_result_uv_dict, dict_set_keys.
      destruct (decide _) as [Hin|Hin]; [done|]. split.
      + by apply prefix_app_r.
      + intros Hnd. apply NoDup_app. split_and!; [done| |apply NoDup_singleton].
        intros x Hx ->%list_elem_of_singleton. done.
    - by intros s0. }
  split_and!; [done|done|]. intros item.
  by rewrite !dict_get_keys, run_get, merged_is_Some.
Qed.

Lemma store_items_are_kept_in_order_witness :
  let s := (run log2_pow2 (init 10 1.1%Q 5 3 example_weights)
              [Completion 1 [mkGeneratorResult "b" 1 0.9%Q]]).1 in
  let calls :=
    [Completion 2 [mkGeneratorResult "a" 1 0.1%Q;
                   mkGeneratorResult "b" 1 0.2%Q;
                   mkGeneratorResult "c" 1 0.3%Q]] in
  keys (uv_dict (run log2_pow2 s calls).1) = ["b"; "a"; "c"]
  ∧ NoDup (keys (uv_dict (run log2_pow2 s calls).1)).
Proof.
  intros s calls. split; [vm_compute; reflexivity|].
  apply (store_items_are_kept_in_order log2_pow2 s calls).
  apply (bool_decide_unpack _); vm_compute; exact I.
Defined.

(** ** The order of arrival *)

Lemma merged_perm (o : option Q) (es es' : list Q) :
  es ≡ₚ es' → option_Forall2 Qeq (merged o es) (merged o es').
Proof.
  intros Hp. destruct es as [|e es].
  - apply Permutation_nil_l in Hp. subst es'. simpl.
    destruct o; constructor. reflexivity.
  - destruct es' as [|e' es'];
      [by apply Permutation_nil_r in Hp|].
    destruct (merged_nonempty o (e :: es)) as (v & -> & Hd & Hall & Hin);
      [done|].
    destruct (merged_nonempty o (e' :: es')) as (v' & -> & Hd' & Hall' & Hin');
      [done|].
    constructor. rewrite Forall_forall in Hall, Hall'. apply Qle_antisym.
    + destruct Hin as [->|Hin]; [done|]. apply Hall'. by rewrite <- Hp.
    + destruct Hin' as [->|Hin']; [done|]. apply Hall. by rewrite Hp.
Qed.

(** X16.  The stored estimate of an item does not depend on the order of
    arrival: two sequences of calls that are permutations of each other, or
    two result lists of one call that are, leave every item with stored
    estimates that are equal as numbers. *)
Theorem stored_estimate_independent_of_order
    (log2 : Q → Q) (s : CandidateGeneratorService) (item : string) :
  (∀ calls calls', calls ≡ₚ calls' →
     option_Forall2 Qeq
       (dict_get (uv_dict (run log2 s calls).1) item)
       (dict_get (uv_dict (run log2 s calls').1) item))
  ∧ (∀ generator_id results results', results ≡ₚ results' →
       option_Forall2 Qeq
         (dict_get
            (uv_dict (OnGeneratorCompletion log2 s generator_id results).1)
            item)
         (dict_get
            (uv_dict (OnGeneratorCompletion log2 s generator_id results').1)
            item)).
Proof.
  split.
  - intros calls calls' Hp. rewrite !run_get. apply merged_perm.
    unfold estimates_for. by apply Permutation_flat_map.
  - intros generator_id results results' Hp.
    rewrite !OnGeneratorCompletion_get. apply merged_perm.
    unfold result_estimates. by rewrite Hp.
Qed.

Lemma stored_estimate_independent_of_order_witness :
  let s := init 10 1.1%Q 5 3 example_weights in
  let c1 := Completion 1 [mkGeneratorResult "a" 1 0.9%Q] in
  let c2 := Completion 2 [mkGeneratorResult "a" 3 0.2%Q] in
  option_Forall2 Qeq
    (dict_get (uv_dict (run log2_pow2 s [c1; c2]).1) "a")
    (dict_get (uv_dict (run log2_pow2 s [c2; c1]).1) "a").
Proof.
  intros s c1 c2.
  apply (proj1 (stored_estimate_independent_of_order log2_pow2 s "a")).
  apply perm_swap.
Defined.

(** ** The scorer *)

(** X17.  A generator without configured weights is scored with the neutral
    triple (1, 1, 1), that is exactly like a generator configured with that
    triple; and with a non-negative score weight [w1] a higher score never
    gives a lower estimate. *)
Theorem scorer_default_weights_and_monotonicity
    (log2 : Q → Q) (s : CandidateGeneratorService) (generator_id : Z)
    (rank : Z) :
  (∀ s' generator_id' score,
     weights s !! generator_id = None →
     weights s' !! generator_id' = Some (1%Q, 1%Q, 1%Q) →
     calculate_user_value_estimate log2 s generator_id rank score
     = calculate_user_value_estimate log2 s' generator_id' rank score)
  ∧ (∀ w0 w1 w2 score score',
       default (1%Q, 1%Q, 1%Q) (weights s !! generator_id) = (w0, w1, w2) →
       (0 <= w1)%Q → (score <= score')%Q →
       (calculate_user_value_estimate log2 s generator_id rank score
        <= calculate_user_value_estimate log2 s generator_id rank score')%Q).
Proof.
  split.
  - intros s' generator_id' score Hnone Hsome.
    unfold calculate_user_value_estimate. by rewrite Hnone, Hsome.
  - intros w0 w1 w2 score score' Hw Hw1 Hle.
    unfold calculate_user_value_estimate. rewrite Hw.
    apply Qplus_le_compat; [|apply Qle_refl].
    apply Qplus_le_compat; [apply Qle_refl|].
    rewrite !(Qmult_comm w1). by apply Qmult_le_compat_r.
Qed.

Lemma scorer_default_weights_and_monotonicity_witness :
  let s := init 10 1.1%Q 5 3 example_weights in
  (calculate_user_value_estimate log2_pow2 s 1 1 0.7%Q
   <= calculate_user_value_estimate log2_pow2 s 1 1 0.9%Q)%Q
  ∧ calculate_user_value_estimate log2_pow2 s 7 1 0.9%Q
    = calculate_user_value_estimate log2_pow2
        (init 10 1.1%Q 5 3 {[ 3 := (1%Q, 1%Q, 1%Q) ]}) 3 1 0.9%Q.
Proof.
  intros s.
  destruct (scorer_default_weights_and_monotonicity log2_pow2 s 1 1)
    as [_ Hmono].
  destruct (scorer_default_weights_and_monotonicity log2_pow2 s 7 1)
    as [Hdef _].
  split.
  - apply (Hmono 0.5%Q 0.8%Q 0.2%Q).
    + vm_compute. reflexivity.
    + vm_compute. discriminate.
    + vm_compute. discriminate.
  - apply Hdef; vm_compute; reflexivity.
Defined.
